(** * SpotifyConnector: a shallow embedding of src/spotify_connector.py

    The client is a Python object with four mutable fields that talks to
    three things outside itself: the process environment, the wall clock
    and two HTTP endpoints (and it writes to a logger).  The object is a record, the outside is a
    [World] of oracles that answer as a function of the history of
    events so far, and every method is a function in a state-and-error
    monad whose state survives a raised exception (as Python fields do).

    Conventions
    - A Python [str] is a [string]; [encode('utf-8')] is the identity on
      it (the bytes of the string are its characters).
    - A Python [int] is a [Z].  A Python [float] is a binary64 number;
      a finite one is the rational [Q] it denotes, and comparison on
      finite floats is the comparison of the rationals they denote.
      What the arithmetic of floats does to a rational, rounding to the
      nearest float with ties to even, is [round_float], built on the
      specification of binary64 in the Standard Library.  Infinities
      and NaN have no rational: a body that holds them is outside the
      model, and a sum of floats beyond the largest float, which Python
      makes [inf] and which takes a clock reading beyond 2^970, is kept
      at the largest float.
    - A [World] describes the outside during one call.  The environment
      does not change while a call runs; what may have changed between
      two calls is said by running them in two worlds.
    - A value produced by [response.json()] is a [PyVal]; a dict is an
      association list in insertion order with unique keys. *)

From Stdlib Require Import Ascii String QArith SpecFloat.
From stdpp Require Import base strings list gmap pretty.

Local Open Scope string_scope.
Local Set Warnings "-register-all".

(** ** Python values *)

Inductive PyVal : Type :=
  | PNone
  | PBool (b : bool)
  | PInt (n : Z)
  | PNum (q : Q)
  | PStr (s : string)
  | PList (l : list PyVal)
  | PDict (d : list (string * PyVal)).

Inductive Exn : Type :=
  | ValueError (msg : string)
  | KeyError (key : string)
  | IndexError
  | TypeError
  | OverflowError
  | AttributeError
  | JSONDecodeError
  | RequestException (msg : string)
  | Exception (msg : string).

Inductive Result (A : Type) : Type :=
  | Ok (a : A)
  | Raise (e : Exn).
Arguments Ok {A} a.
Arguments Raise {A} e.

(** [d[k]] on the association list of a dict. *)
Fixpoint assoc (k : string) (d : list (string * PyVal)) : option PyVal :=
  match d with
  | [] => None
  | (k', v) :: d' => if String.eqb k' k then Some v else assoc k d'
  end.

(** [v[k]] for a string key [k]. *)
Definition py_getitem (v : PyVal) (k : string) : Result PyVal :=
  match v with
  | PDict d => match assoc k d with
               | Some x => Ok x
               | None => Raise (KeyError k)
               end
  | _ => Raise TypeError
  end.

(** [v[0]]. The keys of a dict that came out of JSON are strings, so the
    integer key 0 is never found. *)
Definition py_getitem0 (v : PyVal) : Result PyVal :=
  match v with
  | PList (x :: _) => Ok x
  | PList [] => Raise IndexError
  | PStr (String c _) => Ok (PStr (String c EmptyString))
  | PStr EmptyString => Raise IndexError
  | PDict _ => Raise (KeyError "0")
  | _ => Raise TypeError
  end.

(** [v.get(k, dflt)]: only a dict has the method. *)
Definition py_get (v : PyVal) (k : string) (dflt : PyVal) : Result PyVal :=
  match v with
  | PDict d => Ok (default dflt (assoc k d))
  | _ => Raise AttributeError
  end.

Fixpoint chars (s : string) : list PyVal :=
  match s with
  | EmptyString => []
  | String c s' => PStr (String c EmptyString) :: chars s'
  end.

(** [for x in v]: the elements of a list, the characters of a string,
    the keys of a dict. *)
Definition py_iter (v : PyVal) : Result (list PyVal) :=
  match v with
  | PList l => Ok l
  | PStr s => Ok (chars s)
  | PDict d => Ok (map (fun kv => PStr (fst kv)) d)
  | _ => Raise TypeError
  end.

(** *** Floats *)

(** [2^e] *)
Definition exp2 (e : Z) : Q :=
  match e with
  | Z0 => 1
  | Zpos p => inject_Z (Z.pow_pos 2 p)
  | Zneg p => Qmake 1 (Pos.pow 2 p)
  end.

(** The rational a finite float denotes. *)
Definition float_value (f : spec_float) : option Q :=
  match f with
  | S754_zero _ => Some 0%Q
  | S754_finite s m e =>
      Some (Qred (inject_Z (if s then Zneg m else Zpos m) * exp2 e))
  | _ => None
  end.

(** The binary64 float nearest to a rational, ties to even; beyond the
    largest float it is an infinity. *)
Definition round_float (q : Q) : spec_float :=
  let nearest (s : bool) (n : positive) :=
    let '(m, e, l) := SFdiv_core_binary 53 1024 (Zpos n) 0 (Zpos (Qden q)) 0 in
    binary_round_aux 53 1024 s m e l in
  match Qnum q with
  | Z0 => S754_zero false
  | Zpos n => nearest false n
  | Zneg n => nearest true n
  end.

Definition largest_float : Q :=
  inject_Z ((2 ^ 53 - 1) * 2 ^ 971).

(** A rational as a float. *)
Definition as_float (q : Q) : Q :=
  match round_float q with
  | S754_infinity s => if s then (- largest_float)%Q else largest_float
  | f => default 0%Q (float_value f)
  end.

(** [float(n)] for an [int]: an [int] whose nearest float would be an
    infinity is too large to convert. *)
Definition float_of_int (n : Z) : Result Q :=
  match round_float (inject_Z n) with
  | S754_infinity _ => Raise OverflowError
  | f => Ok (default 0%Q (float_value f))
  end.

(** [a + b] on floats. *)
Definition float_add (a b : Q) : Q := as_float (a + b).

(** [t + v] for a float [t]: an [int] is converted first, and [bool] is
    an [int] in Python. *)
Definition py_add (t : Q) (v : PyVal) : Result Q :=
  match v with
  | PNum q => Ok (float_add t q)
  | PInt n =>
      match float_of_int n with
      | Ok f => Ok (float_add t f)
      | Raise e => Raise e
      end
  | PBool b => Ok (float_add t (if b then 1 else 0))
  | _ => Raise TypeError
  end.

(** [a > b] on numbers. *)
Definition Qgtb (a b : Q) : bool :=
  match (a ?= b)%Q with
  | Gt => true
  | _ => false
  end.

(** [bool(v)] for [v : Optional[str]]. *)
Definition truthy (v : option string) : bool :=
  match v with
  | None => false
  | Some s => negb (String.eqb s "")
  end.

(** [f'{v}'] for [v : Optional[str]]. *)
Definition fmt (v : option string) : string :=
  match v with
  | None => "None"
  | Some s => s
  end.

(** ** base64.b64encode *)

Definition b64_alphabet : string :=
  "ABCDEFGHIJKLMNOPQRSTUVWXYZabcdefghijklmnopqrstuvwxyz0123456789+/".

Definition b64_char (n : N) : ascii :=
  default "="%char (String.get (N.to_nat n) b64_alphabet).

Definition sextet (n : N) (i : N) : ascii :=
  b64_char (N.land (N.shiftr n (6 * i)) 63).

Fixpoint b64_bytes (l : list N) : string :=
  match l with
  | [] => EmptyString
  | [a] =>
      let n := N.shiftl a 16 in
      String (sextet n 3) (String (sextet n 2) "==")
  | [a; b] =>
      let n := N.lor (N.shiftl a 16) (N.shiftl b 8) in
      String (sextet n 3) (String (sextet n 2) (String (sextet n 1) "="))
  | a :: b :: c :: rest =>
      let n := N.lor (N.lor (N.shiftl a 16) (N.shiftl b 8)) c in
      String (sextet n 3) (String (sextet n 2)
        (String (sextet n 1) (String (sextet n 0) (b64_bytes rest))))
  end.

Definition b64encode (s : string) : string :=
  b64_bytes (map N_of_ascii (list_ascii_of_string s)).

(** ** The object, the outside world and the monad *)

Record SpotifyConnector : Type := mkConnector {
  _client_id : option string;
  _client_secret : option string;
  token_url : string;
  base_url : string;
  access_token : PyVal;
  token_expiry : option Q
}.

Inductive LogLevel : Type := DEBUG | INFO | ERROR.

(** The [Authorization] header. [Bearer v] stands for the header string
    [f'Bearer {v}']. *)
Inductive Authorization : Type :=
  | Basic (b64 : string)
  | Bearer (token : PyVal).

(** What [requests] hands back: [json = None] is a body on which
    [response.json()] raises. *)
Record Response : Type := mkResponse {
  status_code : Z;
  text : string;
  json : option PyVal
}.

(** What the object did to the outside, in order. An HTTP event records
    the request and what came back ([Raise] when [requests] itself
    raised, a connection failure for instance). *)
Inductive Event : Type :=
  | EvTime (t : Q)
  | EvLog (level : LogLevel) (msg : string)
  | EvPost (url : string) (auth : Authorization) (data : list (string * string))
      (r : Result Response)
  | EvGet (url : string) (auth : Authorization) (r : Result Response).

(** The outside during one call. The clock and the endpoints see the
    events that happened before they are asked. The environment is the
    one the call runs in: nothing in the client changes it, and what it
    has become by the next call is said by the world of the next call. *)
Record World : Type := mkWorld {
  environ : gmap string string;
  clock : list Event -> Q;
  requests_post :
    list Event -> string -> Authorization -> list (string * string) -> Result Response;
  requests_get : list Event -> string -> Authorization -> Result Response
}.

Record St : Type := mkSt {
  self : SpotifyConnector;
  trace : list Event
}.

Definition M (A : Type) : Type := St -> Result A * St.

Definition ret {A} (a : A) : M A := fun st => (Ok a, st).

Definition raise {A} (e : Exn) : M A := fun st => (Raise e, st).

Definition bind {A B} (m : M A) (k : A -> M B) : M B :=
  fun st =>
    match m st with
    | (Ok a, st') => k a st'
    | (Raise e, st') => (Raise e, st')
    end.

Declare Scope py_scope.
Delimit Scope py_scope with py.
Notation "x <- c1 ;; c2" := (bind c1 (fun x => c2))
  (at level 100, c1 at next level, right associativity) : py_scope.
Notation "c1 ;; c2" := (bind c1 (fun _ => c2))
  (at level 100, right associativity) : py_scope.
Local Open Scope py_scope.

Definition lift {A} (r : Result A) : M A := fun st => (r, st).

Definition read {A} (f : SpotifyConnector -> A) : M A :=
  fun st => (Ok (f (self st)), st).

Definition emit (e : Event) : M unit :=
  fun st => (Ok tt, mkSt (self st) (trace st ++ [e])).

Definition update (f : SpotifyConnector -> SpotifyConnector) : M unit :=
  fun st => (Ok tt, mkSt (f (self st)) (trace st)).

Definition set_client_id (v : option string) (c : SpotifyConnector) :=
  mkConnector v (_client_secret c) (token_url c) (base_url c)
    (access_token c) (token_expiry c).

Definition set_client_secret (v : option string) (c : SpotifyConnector) :=
  mkConnector (_client_id c) v (token_url c) (base_url c)
    (access_token c) (token_expiry c).

Definition set_access_token (v : PyVal) (c : SpotifyConnector) :=
  mkConnector (_client_id c) (_client_secret c) (token_url c) (base_url c)
    v (token_expiry c).

Definition set_token_expiry (v : option Q) (c : SpotifyConnector) :=
  mkConnector (_client_id c) (_client_secret c) (token_url c) (base_url c)
    (access_token c) v.

Definition logger (lvl : LogLevel) (msg : string) : M unit :=
  emit (EvLog lvl msg).

(** A Python [for] over a comprehension whose body can raise. *)
Fixpoint comprehension {A B} (f : A -> Result B) (l : list A) : Result (list B) :=
  match l with
  | [] => Ok []
  | x :: l' =>
      match f x with
      | Raise e => Raise e
      | Ok y =>
          match comprehension f l' with
          | Raise e => Raise e
          | Ok ys => Ok (y :: ys)
          end
      end
  end.

Definition and_then {A B} (r : Result A) (k : A -> Result B) : Result B :=
  match r with
  | Ok a => k a
  | Raise e => Raise e
  end.

Notation "r >>= k" := (and_then r k) (at level 50, left associativity) : py_scope.

(** [v[k]] as a step of a chain of subscripts. *)
Definition key (k : string) (v : PyVal) : Result PyVal := py_getitem v k.

Section Connector.

Variable w : World.

Definition getenv (name : string) : option string := environ w !! name.

(** [time()] *)
Definition py_time : M Q :=
  fun st =>
    let t := clock w (trace st) in
    (Ok t, mkSt (self st) (trace st ++ [EvTime t])).

Definition post (url : string) (auth : Authorization)
    (data : list (string * string)) : M Response :=
  fun st =>
    let r := requests_post w (trace st) url auth data in
    (r, mkSt (self st) (trace st ++ [EvPost url auth data r])).

Definition get (url : string) (auth : Authorization) : M Response :=
  fun st =>
    let r := requests_get w (trace st) url auth in
    (r, mkSt (self st) (trace st ++ [EvGet url auth r])).

(** [response.json()] *)
Definition response_json (r : Response) : M PyVal :=
  match json r with
  | Some v => ret v
  | None => raise JSONDecodeError
  end.

Definition client_id : M (option string) :=
  cid <- read _client_id ;;
  (if decide (cid = None) then
     update (set_client_id (getenv "SPOTIFY_CLIENT_ID")) ;;
     cid' <- read _client_id ;;
     if truthy cid' then ret tt
     else raise (ValueError "SPOTIFY_CLIENT_ID environment variable not set.")
   else ret tt) ;;
  read _client_id.

Definition client_secret : M (option string) :=
  sec <- read _client_secret ;;
  (if decide (sec = None) then
     update (set_client_secret (getenv "SPOTIFY_CLIENT_SECRET")) ;;
     cid' <- read _client_id ;;
     if truthy cid' then ret tt
     else raise (ValueError "SPOTIFY_CLIENT_SECRET environment variable not set.")
   else ret tt) ;;
  read _client_secret.

Definition authenticate : M unit :=
  cid <- client_id ;;
  sec <- client_secret ;;
  let auth_header := b64encode (fmt cid ++ ":" ++ fmt sec) in
  let headers := Basic auth_header in
  let data := [("grant_type", "client_credentials")] in
  url <- read token_url ;;
  response <- post url headers data ;;
  token_info <- response_json response ;;
  if decide (status_code response = 200%Z) then
    tok <- lift (py_getitem token_info "access_token") ;;
    update (set_access_token tok) ;;
    expires_in <- lift (py_getitem token_info "expires_in") ;;
    now <- py_time ;;
    expiry <- lift (py_add now expires_in) ;;
    update (set_token_expiry (Some expiry))
  else
    raise (Exception "Failed to authenticate with Spotify API").

(** [time() > self.token_expiry]; comparing a float with [None] raises. *)
Definition is_token_expired : M bool :=
  now <- py_time ;;
  expiry <- read token_expiry ;;
  match expiry with
  | Some e => ret (Qgtb now e)
  | None => raise TypeError
  end.

Definition refresh_token : M unit :=
  expired <- is_token_expired ;;
  if expired : bool then
    logger INFO "Token expired, refreshing..." ;;
    authenticate
  else ret tt.

Definition make_request (endpoint : string) : M PyVal :=
  refresh_token ;;
  tok <- read access_token ;;
  let headers := Bearer tok in
  base <- read base_url ;;
  logger DEBUG ("Making request to endpoint: " ++ (base ++ endpoint)) ;;
  response <- get (base ++ endpoint) headers ;;
  if decide (status_code response = 200%Z) then
    response_json response
  else
    let msg := "Error fetching data from Spotify API: "
               ++ pretty (status_code response) ++ ", " ++ text response in
    logger ERROR msg ;;
    raise (Exception msg).

Definition get_playlists (category_id : option string) : M (list PyVal) :=
  let endpoint :=
    if truthy category_id
    then "browse/categories/" ++ fmt category_id ++ "/playlists"
    else "browse/featured-playlists" in
  logger DEBUG ("Fetching playlists with endpoint: " ++ endpoint) ;;
  data <- make_request endpoint ;;
  playlists <- lift (py_get data "playlists" (PDict []) >>=
                     fun p => py_get p "items" (PList [])) ;;
  playlist_ids <- lift (py_iter playlists >>= comprehension (key "id")) ;;
  logger INFO ("Fetched " ++ pretty (length playlist_ids) ++ " playlists.") ;;
  ret playlist_ids.

Definition user_playlist (playlist : PyVal) : Result PyVal :=
  py_getitem playlist "id" >>= fun id =>
  py_getitem playlist "name" >>= fun name =>
  py_getitem playlist "tracks" >>= key "total" >>= fun total =>
  Ok (PDict [("id", id); ("name", name); ("tracks_count", total)]).

Definition get_user_playlists : M (list PyVal) :=
  let endpoint := "me/playlists" in
  logger DEBUG ("Fetching user's playlists with endpoint: " ++ endpoint) ;;
  data <- make_request endpoint ;;
  playlists <- lift (py_get data "items" (PList [])) ;;
  user_playlists <- lift (py_iter playlists >>= comprehension user_playlist) ;;
  logger INFO ("Fetched " ++ pretty (length user_playlists) ++ " user playlists.") ;;
  ret user_playlists.

Definition track_detail (track : PyVal) : Result PyVal :=
  py_getitem track "track" >>= key "name" >>= fun name =>
  py_getitem track "track" >>= key "artists" >>= py_getitem0 >>= key "name"
    >>= fun artist =>
  py_getitem track "track" >>= key "id" >>= fun id =>
  Ok (PDict [("name", name); ("artist", artist); ("id", id)]).

Definition get_playlist_tracks (playlist_id : string) : M (list PyVal) :=
  let endpoint := "playlists/" ++ playlist_id ++ "/tracks" in
  logger DEBUG ("Fetching tracks from playlist with endpoint: " ++ endpoint) ;;
  data <- make_request endpoint ;;
  tracks <- lift (py_get data "items" (PList [])) ;;
  track_details <- lift (py_iter tracks >>= comprehension track_detail) ;;
  logger INFO ("Fetched " ++ pretty (length track_details)
               ++ " tracks from playlist " ++ playlist_id ++ ".") ;;
  ret track_details.

(** [SpotifyConnector(client_id, client_secret)]: the fields are set,
    then [authenticate] runs; the caller gets the object only when
    nothing was raised. *)
Definition __init__ (client_id client_secret : option string) : M unit :=
  update (fun _ =>
    mkConnector client_id client_secret
      "https://accounts.spotify.com/api/token"
      "https://api.spotify.com/v1/"
      PNone None) ;;
  authenticate.

End Connector.

(** ** Observing a run *)

(** The events a computation adds to the trace. *)
Definition events_of {A} (m : M A) (st : St) : list Event :=
  drop (length (trace st)) (trace (snd (m st))).

Definition is_post (e : Event) : bool :=
  match e with
  | EvPost _ _ _ _ => true
  | _ => false
  end.

Definition is_get (e : Event) : bool :=
  match e with
  | EvGet _ _ _ => true
  | _ => false
  end.

Definition count_if (p : Event -> bool) (evs : list Event) : nat :=
  length (List.filter p evs).

(** The expression [SpotifyConnector(client_id, client_secret)] evaluated
    after the events [history]: an object, or the exception that left
    the caller without one. *)
Definition new (w : World) (client_id client_secret : option string)
    (history : list Event) : Result SpotifyConnector * list Event :=
  let blank := mkConnector None None "" "" PNone None in
  match __init__ w client_id client_secret (mkSt blank history) with
  | (Ok _, st) => (Ok (self st), trace st)
  | (Raise e, st) => (Raise e, trace st)
  end.

(** The two stored token fields. *)
Definition token_state (st : St) : PyVal * option Q :=
  (access_token (self st), token_expiry (self st)).

(** ** Fixtures *)

(** A JSON string literal: the text between two quotation marks. *)
Definition quoted (s : string) : string :=
  let q := String (ascii_of_nat 34) EmptyString in q ++ s ++ q.

(** The text of a body, printed from its value. Of the floats it
    prints the whole ones; the fixtures hold no others. *)
Fixpoint dumps (v : PyVal) : string :=
  match v with
  | PNone => "null"
  | PBool true => "true"
  | PBool false => "false"
  | PInt n => pretty n
  | PNum q => pretty (Qnum q) ++ ".0"
  | PStr s => quoted s
  | PList l =>
      "[" ++ (fix items (l : list PyVal) : string :=
                match l with
                | [] => ""
                | [x] => dumps x
                | x :: l' => dumps x ++ ", " ++ items l'
                end) l ++ "]"
  | PDict d =>
      "{" ++ (fix members (d : list (string * PyVal)) : string :=
                match d with
                | [] => ""
                | [(k, x)] => quoted k ++ ": " ++ dumps x
                | (k, x) :: d' => quoted k ++ ": " ++ dumps x ++ ", " ++ members d'
                end) d ++ "}"
  end.

(** A 200 answer with the body [v]. *)
Definition ok_response (v : PyVal) : Response :=
  mkResponse 200 (dumps v) (Some v).

Definition token_body : PyVal :=
  PDict [("access_token", PStr "T1"); ("expires_in", PInt 3600)].

Definition token_response : Response := ok_response token_body.

(** A token answer without [expires_in]. *)
Definition short_token_response : Response :=
  ok_response (PDict [("access_token", PStr "T1")]).

Definition empty_response : Response := ok_response (PDict []).

(** A gateway failure: status 503 and an HTML page for a body. *)
Definition gateway_failure : Response :=
  mkResponse 503 "<html><body>Service Unavailable</body></html>" None.

(** The token endpoint turning the credentials down. *)
Definition invalid_client : Response :=
  let v := PDict [("error", PStr "invalid_client")] in
  mkResponse 400 (dumps v) (Some v).

(** The resource endpoint turning the token down. *)
Definition unauthorized : Response :=
  mkResponse 401 "Unauthorized" None.

Definition playlists_body : PyVal :=
  PDict [("playlists",
          PDict [("items",
                  PList [PDict [("id", PStr "p1"); ("name", PStr "One")];
                         PDict [("id", PStr "p2"); ("name", PStr "Two")]])])].

Definition artist (name : string) : PyVal := PDict [("name", PStr name)].

Definition tracks_body : PyVal :=
  PDict [("items",
          PList [PDict [("track",
                         PDict [("name", PStr "Song A");
                                ("artists", PList [artist "Ann"; artist "Bob"]);
                                ("id", PStr "t1")])];
                 PDict [("track",
                         PDict [("name", PStr "Song B");
                                ("artists", PList [artist "Cy"; artist "Dee"]);
                                ("id", PStr "t2")])]])].

(** A world with the environment [env], a clock stopped at [now], and
    endpoints that always answer [tok] and [res]. *)
Definition fixed_world (env : gmap string string) (now : Q)
    (tok res : Response) : World :=
  mkWorld env (fun _ => now) (fun _ _ _ _ => Ok tok) (fun _ _ _ => Ok res).

Definition connector (access : string) (expiry : Q) : SpotifyConnector :=
  mkConnector (Some "id") (Some "secret")
    "https://accounts.spotify.com/api/token" "https://api.spotify.com/v1/"
    (PStr access) (Some expiry).

(** At the clock reading 100 the token of [fresh] is good and the token
    of [stale] is not. *)
Definition fresh : St := mkSt (connector "T0" 200) [].
Definition stale : St := mkSt (connector "T0" 50) [].

(** The lines of [make_request] below the call of [refresh_token]:
    the header, the GET and the reading of the answer. *)
Definition send (w : World) (endpoint : string) : M PyVal :=
  tok <- read access_token ;;
  let headers := Bearer tok in
  base <- read base_url ;;
  logger DEBUG ("Making request to endpoint: " ++ (base ++ endpoint)) ;;
  response <- get w (base ++ endpoint) headers ;;
  if decide (status_code response = 200%Z) then
    response_json response
  else
    let msg := "Error fetching data from Spotify API: "
               ++ pretty (status_code response) ++ ", " ++ text response in
    logger ERROR msg ;;
    raise (Exception msg).

(** The message of the exception [make_request] raises on a non-200
    answer. *)
Definition request_error (status : Z) (body : string) : Exn :=
  Exception ("Error fetching data from Spotify API: "
             ++ pretty status ++ ", " ++ body).

(** What [make_request] makes of what [requests.get] gave. *)
Definition read_response (r : Result Response) : Result PyVal :=
  match r with
  | Raise e => Raise e
  | Ok response =>
      if decide (status_code response = 200%Z) then
        match json response with
        | Some v => Ok v
        | None => Raise JSONDecodeError
        end
      else Raise (request_error (status_code response) (text response))
  end.

(** The shape the three fetching methods share: a line in the log, the
    request, the projection of the body, a second line in the log. *)
Definition fetch {A} (w : World) (endpoint before : string)
    (project : PyVal -> Result A) (after : A -> string) : M A :=
  logger DEBUG before ;;
  data <- make_request w endpoint ;;
  x <- lift (project data) ;;
  logger INFO (after x) ;;
  ret x.

(** The playlists→items path of [get_playlists]. *)
Definition playlist_ids_of (data : PyVal) : Result (list PyVal) :=
  py_get data "playlists" (PDict []) >>= (fun p => py_get p "items" (PList []))
  >>= py_iter >>= comprehension (key "id").

(** A track summary, and what it takes for an item of the response to
    carry one: a [track] object with a [name], an [id] and a list of
    [artists] whose first entry has a [name]. *)
Record TrackSummary : Type := mkTrack {
  track_name : PyVal;
  track_artist : PyVal;
  track_id : PyVal
}.

Definition summary (t : TrackSummary) : PyVal :=
  PDict [("name", track_name t); ("artist", track_artist t); ("id", track_id t)].

Definition track_item (item : PyVal) (t : TrackSummary) : Prop :=
  exists track first others,
    py_getitem item "track" = Ok track
    /\ py_getitem track "name" = Ok (track_name t)
    /\ py_getitem track "artists" = Ok (PList (first :: others))
    /\ py_getitem first "name" = Ok (track_artist t)
    /\ py_getitem track "id" = Ok (track_id t).

(** No comma among the characters of [s]. *)
Fixpoint no_comma (s : string) : bool :=
  match s with
  | EmptyString => true
  | String c s' => negb (Ascii.eqb c ",") && no_comma s'
  end.

(** The exception of the [else] branch of [authenticate]. *)
Definition auth_error : Exn :=
  Exception "Failed to authenticate with Spotify API".

(** [st'] has a new access token next to the expiry of [st]. *)
Definition partially_updated (st st' : St) : Prop :=
  access_token (self st') <> access_token (self st)
  /\ token_expiry (self st') = token_expiry (self st).

(** ** Callers *)

(** A playlist summary of [get_user_playlists], and what it takes for an
    item of the response to carry one: an [id], a [name] and a [tracks]
    object with a [total]. *)
Record PlaylistSummary : Type := mkPlaylist {
  playlist_ident : PyVal;
  playlist_name : PyVal;
  playlist_total : PyVal
}.

Definition playlist_summary (p : PlaylistSummary) : PyVal :=
  PDict [("id", playlist_ident p); ("name", playlist_name p);
         ("tracks_count", playlist_total p)].

Definition playlist_item (item : PyVal) (p : PlaylistSummary) : Prop :=
  exists tracks,
    py_getitem item "id" = Ok (playlist_ident p)
    /\ py_getitem item "name" = Ok (playlist_name p)
    /\ py_getitem item "tracks" = Ok tracks
    /\ py_getitem tracks "total" = Ok (playlist_total p).

(** What a caller can do with the object. *)
Inductive Call : Type :=
  | CallClientId
  | CallClientSecret
  | CallAuthenticate
  | CallIsTokenExpired
  | CallRefreshToken
  | CallMakeRequest (endpoint : string)
  | CallGetPlaylists (category_id : option string)
  | CallGetUserPlaylists
  | CallGetPlaylistTracks (playlist_id : string).

(** The state a call leaves behind, whether it returned or raised: the
    caller may catch the exception and go on with the same object. *)
Definition invoke (w : World) (c : Call) (st : St) : St :=
  match c with
  | CallClientId => snd (client_id w st)
  | CallClientSecret => snd (client_secret w st)
  | CallAuthenticate => snd (authenticate w st)
  | CallIsTokenExpired => snd (is_token_expired w st)
  | CallRefreshToken => snd (refresh_token w st)
  | CallMakeRequest endpoint => snd (make_request w endpoint st)
  | CallGetPlaylists category_id => snd (get_playlists w category_id st)
  | CallGetUserPlaylists => snd (get_user_playlists w st)
  | CallGetPlaylistTracks playlist_id => snd (get_playlist_tracks w playlist_id st)
  end.

(** A sequence of calls, each in the world it runs in: between two
    calls the environment, like the rest of the outside, may change. *)
Definition run_calls (calls : list (World * Call)) (st : St) : St :=
  fold_left (fun s wc => invoke (fst wc) (snd wc) s) calls st.

(** What is left of [c] in [c']: the client id, the two URLs, a client
    secret once one is stored, and an expiry once one is stored. *)
Definition kept (c c' : SpotifyConnector) : Prop :=
  _client_id c' = _client_id c
  /\ token_url c' = token_url c
  /\ base_url c' = base_url c
  /\ (_client_secret c <> None -> _client_secret c' = _client_secret c)
  /\ (is_Some (token_expiry c) -> is_Some (token_expiry c')).

Definition user_playlists_body : PyVal :=
  PDict [("items",
          PList [PDict [("id", PStr "u1"); ("name", PStr "Mine");
                        ("tracks", PDict [("total", PInt 12)])];
                 PDict [("id", PStr "u2"); ("name", PStr "Yours");
                        ("tracks", PDict [("total", PInt 0)])]])].

(** A method keeps the object it runs on, when that has a client id. *)
Definition keeps {A} (m : M A) : Prop :=
  forall st,
    is_Some (_client_id (self st)) -> kept (self st) (self (snd (m st))).

(** A token answer whose lifetime is an integer no float can hold. *)
Definition endless_token_response : Response :=
  ok_response (PDict [("access_token", PStr "T1"); ("expires_in", PInt (10 ^ 309))]).

(** A later world, in which the secret has been put in the environment. *)
Definition world_with_secret : World :=
  mkWorld {[ "SPOTIFY_CLIENT_SECRET" := "s3" ]} (fun _ => 5000%Q)
    (fun _ _ _ _ => Ok token_response) (fun _ _ _ => Ok unauthorized).

(** The ways the GET of [make_request] ends in an exception: [requests]
    raised, the status is not 200, or the status is 200 and the body is
    not JSON. *)
Inductive request_fails : Result Response -> Exn -> Prop :=
  | transport_error (e : Exn) : request_fails (Raise e) e
  | bad_status (resp : Response) :
      status_code resp <> 200%Z ->
      request_fails (Ok resp) (request_error (status_code resp) (text resp))
  | bad_body (resp : Response) :
      status_code resp = 200%Z -> json resp = None ->
      request_fails (Ok resp) JSONDecodeError.

(** A world without a network: every request raises. *)
Definition offline_world : World :=
  mkWorld ∅ (fun _ => 100%Q)
    (fun _ _ _ _ => Raise (RequestException "connection refused"))
    (fun _ _ _ => Raise (RequestException "connection refused")).

(** A playlist whose second track is gone: the item is there, its
    [track] is [null]. *)
Definition removed_track_body : PyVal :=
  PDict [("items",
          PList [PDict [("track",
                         PDict [("name", PStr "Song A");
                                ("artists", PList [artist "Ann"; artist "Bob"]);
                                ("id", PStr "t1")])];
                 PDict [("track", PNone)]])].

(** A listing whose second item has no [id]. *)
Definition nameless_playlists_body : PyVal :=
  PDict [("playlists",
          PDict [("items",
                  PList [PDict [("id", PStr "p1")];
                         PDict [("name", PStr "Two")]])])].

(** ** Symbolic execution of the monad *)

Ltac unfold_monad :=
  cbv [bind ret raise lift read update emit logger py_time post get
       response_json and_then key] in *.

(** Case split on an innermost scrutinee of the goal. *)
Ltac split_run :=
  match goal with
  | |- context [match ?x with _ => _ end] =>
      lazymatch x with
      | context [match _ with _ => _ end] => fail
      | _ => destruct x eqn:?
      end
  end.

Ltac run := unfold_monad; simpl in *; repeat (split_run; simpl in *; simplify_eq).

(** Bring the trace of a finished run to the form [history ++ events]. *)
Ltac events := rewrite <- ?app_assoc; simpl; rewrite ?drop_app_length, ?drop_all.

(** Which event of a finished run a membership hypothesis speaks of. *)
Ltac pick_event H :=
  repeat (apply elem_of_cons in H as [H | H]);
  try (apply elem_of_nil in H; contradiction);
  simplify_eq.

Lemma events_of_app {A} (m : M A) (st : St) (evs : list Event) :
  trace (snd (m st)) = (trace st ++ evs)%list -> events_of m st = evs.
Proof. unfold events_of. intros ->. apply drop_app_length. Qed.

Lemma Qgtb_lt (a b : Q) : Qgtb a b = true <-> (b < a)%Q.
Proof.
  unfold Qgtb. rewrite (Qgt_alt a b).
  destruct (a ?= b)%Q; split; congruence.
Qed.

Section Credentials.

Variable w : World.

(** The accessors touch nothing but the credential they resolve. *)
Lemma client_id_frame (st : St) :
  exists v, snd (client_id w st) = mkSt (set_client_id v (self st)) (trace st).
Proof.
  destruct st as [[cid sec tu bu at_ te] tr].
  unfold client_id. run; eexists; reflexivity.
Qed.

Lemma client_secret_frame (st : St) :
  exists v, snd (client_secret w st) = mkSt (set_client_secret v (self st)) (trace st).
Proof.
  destruct st as [[cid sec tu bu at_ te] tr].
  unfold client_secret. run; eexists; reflexivity.
Qed.

(** The sibling accessor does check its own field. *)
Lemma client_id_unset_raises (st : St) :
  _client_id (self st) = None ->
  environ w !! "SPOTIFY_CLIENT_ID" = None ->
  fst (client_id w st)
  = Raise (ValueError "SPOTIFY_CLIENT_ID environment variable not set.").
Proof.
  destruct st as [[cid sec tu bu at_ te] tr]. simpl. intros -> Henv.
  unfold client_id, getenv. run; try congruence.
  rewrite Henv in *. discriminate.
Qed.

(** A value returned by [client_id] is never a missing one. *)
Lemma client_id_some (st : St) (v : option string) :
  fst (client_id w st) = Ok v -> is_Some v.
Proof.
  destruct st as [[cid sec tu bu at_ te] tr].
  unfold client_id. run; intros; simplify_eq.
  - destruct (getenv w "SPOTIFY_CLIENT_ID"); [eauto | discriminate].
  - destruct v; [eauto | congruence].
Qed.

End Credentials.

(** ** Token freshness *)

(** C8. [is_token_expired] compares the clock reading it takes with the
    stored expiry: it answers true exactly when the expiry is strictly
    before that reading, so a reading equal to the expiry is not
    expired. *)
Theorem is_token_expired_strict (w : World) (st : St) (e : Q) :
  token_expiry (self st) = Some e ->
  exists b : bool,
    fst (is_token_expired w st) = Ok b
    /\ (b = true <-> (e < clock w (trace st))%Q)
    /\ ((clock w (trace st) == e)%Q -> b = false)
    /\ ((e < clock w (trace st))%Q -> b = true).
Proof.
  intros He. exists (Qgtb (clock w (trace st)) e).
  unfold is_token_expired. unfold_monad. simpl. rewrite He. simpl.
  split; [reflexivity |]. split; [apply Qgtb_lt |]. split.
  - intros Heq. unfold Qgtb.
    apply Qeq_alt in Heq. now rewrite Heq.
  - apply Qgtb_lt.
Qed.

Lemma is_token_expired_strict_witness :
  let w := fixed_world ∅ 200 token_response empty_response in
  exists b : bool,
    fst (is_token_expired w fresh) = Ok b
    /\ (b = true <-> (200 < clock w (trace fresh))%Q)
    /\ ((clock w (trace fresh) == 200)%Q -> b = false)
    /\ ((200 < clock w (trace fresh))%Q -> b = true).
Proof.
  apply (is_token_expired_strict
           (fixed_world ∅ 200 token_response empty_response) fresh 200).
  reflexivity.
Defined.

(** ** Authentication *)

(** C10. The body is parsed before the status is looked at: whatever the
    status of the token endpoint's answer (a non-200 one in particular),
    a body that is not JSON makes [authenticate] raise the parse error,
    not the authentication error, and both token fields stay as they
    were. *)
Theorem authenticate_parses_before_status (w : World) (st : St)
    (url : string) (auth : Authorization) (data : list (string * string))
    (resp : Response) :
  EvPost url auth data (Ok resp) ∈ events_of (authenticate w) st ->
  json resp = None ->
  fst (authenticate w st) = Raise JSONDecodeError
  /\ fst (authenticate w st) <> Raise auth_error
  /\ token_state (snd (authenticate w st)) = token_state st.
Proof.
  destruct st as [[cid sec tu bu at_ te] tr].
  unfold events_of, token_state, authenticate, client_id, client_secret.
  run; events; intros Hin Hjson; pick_event Hin; try congruence; done.
Qed.

Lemma authenticate_parses_before_status_witness :
  let w := fixed_world ∅ 100 gateway_failure empty_response in
  status_code gateway_failure <> 200%Z
  /\ fst (authenticate w stale) = Raise JSONDecodeError
  /\ fst (authenticate w stale) <> Raise auth_error
  /\ token_state (snd (authenticate w stale)) = token_state stale.
Proof.
  split; [discriminate |].
  apply (authenticate_parses_before_status
           (fixed_world ∅ 100 gateway_failure empty_response) stale
           "https://accounts.spotify.com/api/token"
           (Basic (b64encode "id:secret"))
           [("grant_type", "client_credentials")]
           gateway_failure).
  - vm_compute. apply list_elem_of_here.
  - reflexivity.
Defined.

(** What a non-200 answer of the token endpoint does: [authenticate]
    raises and leaves both token fields as they were; the exception is
    the authentication error when the body is JSON, and the parse error
    when it is not. *)
Theorem authenticate_non_200 (w : World) (st : St)
    (url : string) (auth : Authorization) (data : list (string * string))
    (resp : Response) :
  EvPost url auth data (Ok resp) ∈ events_of (authenticate w) st ->
  status_code resp <> 200%Z ->
  fst (authenticate w st)
  = match json resp with
    | Some _ => Raise auth_error
    | None => Raise JSONDecodeError
    end
  /\ token_state (snd (authenticate w st)) = token_state st.
Proof.
  destruct st as [[cid sec tu bu at_ te] tr].
  unfold events_of, token_state, authenticate, client_id, client_secret.
  run; events; intros Hin Hst; pick_event Hin; try congruence; done.
Qed.

Lemma authenticate_non_200_witness :
  let w := fixed_world ∅ 100 invalid_client empty_response in
  fst (authenticate w stale) = Raise auth_error
  /\ token_state (snd (authenticate w stale)) = token_state stale.
Proof.
  apply (authenticate_non_200
           (fixed_world ∅ 100 invalid_client empty_response) stale
           "https://accounts.spotify.com/api/token"
           (Basic (b64encode "id:secret"))
           [("grant_type", "client_credentials")]
           invalid_client).
  - vm_compute. apply list_elem_of_here.
  - discriminate.
Defined.

(** C4, where the code departs from it. The token endpoint answers 503
    with an HTML page for a body: [authenticate] parses the body before
    it looks at the status, and raises the parse error where the branch
    for a non-200 status would have raised the authentication error;
    both token fields stay as they were. *)
Lemma authenticate_non_200_parse_error :
  let w := fixed_world ∅ 100 gateway_failure empty_response in
  events_of (authenticate w) stale
  = [EvPost "https://accounts.spotify.com/api/token"
       (Basic (b64encode "id:secret"))
       [("grant_type", "client_credentials")] (Ok gateway_failure)]
  /\ status_code gateway_failure <> 200%Z
  /\ fst (authenticate w stale) = Raise JSONDecodeError
  /\ fst (authenticate w stale) <> Raise auth_error
  /\ token_state (snd (authenticate w stale)) = token_state stale.
Proof.
  vm_compute. repeat split; discriminate.
Qed.

(** The sibling [make_request] looks at the status first: the same
    answer from the resource endpoint raises the request error, and the
    body is not parsed. *)
Example make_request_status_first :
  let w := fixed_world ∅ 100 token_response gateway_failure in
  fst (make_request w "me/playlists" fresh)
  = Raise (request_error 503 "<html><body>Service Unavailable</body></html>").
Proof. vm_compute. reflexivity. Qed.

(** C3, as the code has it. Every run of [authenticate] ends in one of
    three ways. It raises with both token fields as they were. Or the
    token endpoint answered 200 with a body that has [access_token], and
    the stored token is now that value; then either [expires_in] is
    there and can be added to a float, the call returns and the stored
    expiry is the float sum of the clock reading taken after the answer
    and [expires_in], or [expires_in] is missing or cannot be added (it
    is no number, or an [int] too large for a float), the call raises
    and the stored expiry is the old one. The expiry is never replaced
    without the token. *)
Theorem authenticate_token_update (w : World) (st : St) :
  let r := fst (authenticate w st) in
  let st' := snd (authenticate w st) in
  ((exists e, r = Raise e) /\ token_state st' = token_state st)
  \/ (exists url auth data resp info tok,
        let now := clock w (trace st ++ [EvPost url auth data (Ok resp)]) in
        EvPost url auth data (Ok resp) ∈ events_of (authenticate w) st
        /\ status_code resp = 200%Z
        /\ json resp = Some info
        /\ py_getitem info "access_token" = Ok tok
        /\ access_token (self st') = tok
        /\ ((exists ttl e,
               py_getitem info "expires_in" = Ok ttl
               /\ py_add now ttl = Ok e
               /\ r = Ok tt
               /\ token_expiry (self st') = Some e)
            \/ (exists e,
                  (py_getitem info "expires_in" = Raise e
                   \/ exists ttl,
                        py_getitem info "expires_in" = Ok ttl
                        /\ py_add now ttl = Raise e)
                  /\ r = Raise e
                  /\ token_expiry (self st') = token_expiry (self st)))).
Proof.
  destruct st as [[cid sec tu bu at_ te] tr].
  unfold events_of, token_state, authenticate, client_id, client_secret.
  run; events.
  all: first
    [ left; split; [eexists; reflexivity | reflexivity]
    | right; do 6 eexists;
      (split; [apply list_elem_of_here |]); (split; [eassumption |]);
      (split; [eassumption |]); (split; [eassumption |]);
      (split; [reflexivity |]);
      first
        [ left; do 2 eexists; repeat split; eauto; fail
        | right; eexists; split;
          [left; eassumption | split; reflexivity]
        | right; eexists; split;
          [right; eexists; split; eassumption | split; reflexivity] ] ].
Qed.

(** C3 as stated fails: on a 200 answer whose body has [access_token]
    and no [expires_in], the stored token is replaced and the stored
    expiry is not. *)
Lemma authenticate_partial_update :
  let w := fixed_world ∅ 100 short_token_response empty_response in
  events_of (authenticate w) stale
  = [EvPost "https://accounts.spotify.com/api/token"
       (Basic (b64encode "id:secret"))
       [("grant_type", "client_credentials")] (Ok short_token_response)]
  /\ fst (authenticate w stale) = Raise (KeyError "expires_in")
  /\ access_token (self stale) = PStr "T0"
  /\ access_token (self (snd (authenticate w stale))) = PStr "T1"
  /\ partially_updated stale (snd (authenticate w stale)).
Proof.
  vm_compute. repeat split. discriminate.
Qed.

(** The same with an [expires_in] that is there and is a number, an
    [int] too large for a float: the sum raises after the token was
    stored. *)
Example authenticate_overflow :
  let w := fixed_world ∅ 100 endless_token_response empty_response in
  fst (authenticate w stale) = Raise OverflowError
  /\ access_token (self (snd (authenticate w stale))) = PStr "T1"
  /\ partially_updated stale (snd (authenticate w stale)).
Proof.
  vm_compute. repeat split. discriminate.
Qed.

(** The sum [t + v] raises in two cases only: [v] is an [int] too large
    to convert, or [v] is no number at all. *)
Lemma py_add_raises (t : Q) (v : PyVal) (e : Exn) :
  py_add t v = Raise e ->
  (e = OverflowError /\ exists n, v = PInt n /\ float_of_int n = Raise OverflowError)
  \/ (e = TypeError
      /\ (forall b, v <> PBool b) /\ (forall n, v <> PInt n) /\ (forall q, v <> PNum q)).
Proof.
  destruct v as [|b|n|q|s|l|d]; simpl; try discriminate;
    try (intros [= <-]; right; repeat split; discriminate).
  destruct (float_of_int n) as [f|e'] eqn:Hf; [discriminate |].
  intros [= <-]. left.
  assert (e' = OverflowError) as ->.
  { unfold float_of_int in Hf.
    destruct (round_float (inject_Z n)); congruence. }
  split; [reflexivity |]. exists n. split; [reflexivity | assumption].
Qed.

(** The largest [int] that converts, and the first that does not. *)
Example float_of_int_bound :
  float_of_int (2 ^ 1024 - 2 ^ 970 - 1) = Ok largest_float
  /\ float_of_int (2 ^ 1024 - 2 ^ 970) = Raise OverflowError
  /\ float_of_int 3600 = Ok 3600%Q
  /\ float_add 10000000000000002 1 = 10000000000000004%Q.
Proof. vm_compute. repeat split. Qed.

(** ** Credentials *)

(** C2, where the code departs from it. With a client id at hand and no
    client secret, neither passed nor in the environment, the accessor
    checks [_client_id] where it means [_client_secret]: it returns
    [None] and raises nothing. *)
Theorem client_secret_unset_not_raised (w : World) (st : St) :
  _client_secret (self st) = None ->
  environ w !! "SPOTIFY_CLIENT_SECRET" = None ->
  truthy (_client_id (self st)) = true ->
  fst (client_secret w st) = Ok None.
Proof.
  destruct st as [[cid sec tu bu at_ te] tr]. simpl.
  intros -> Henv Hid.
  unfold client_secret, getenv. run; congruence.
Qed.

Lemma client_secret_unset_not_raised_witness :
  let w := fixed_world ∅ 100 token_response empty_response in
  let st := mkSt (mkConnector (Some "id") None "" "" PNone None) [] in
  fst (client_secret w st) = Ok None.
Proof.
  apply (client_secret_unset_not_raised
           (fixed_world ∅ 100 token_response empty_response)
           (mkSt (mkConnector (Some "id") None "" "" PNone None) []));
    reflexivity.
Defined.

(** The constructor then goes on to the token endpoint with the text
    [None] for a secret, and hands out an object when that answers 200. *)
Lemma new_without_secret :
  let w := fixed_world ∅ 100 token_response empty_response in
  new w (Some "id") None []
  = (Ok (mkConnector (Some "id") None
           "https://accounts.spotify.com/api/token"
           "https://api.spotify.com/v1/"
           (PStr "T1") (Some 3700%Q)),
     [EvPost "https://accounts.spotify.com/api/token"
        (Basic "aWQ6Tm9uZQ==")
        [("grant_type", "client_credentials")]
        (Ok token_response);
      EvTime 100])
  /\ b64encode "id:None" = "aWQ6Tm9uZQ==".
Proof. vm_compute. split; reflexivity. Qed.

(** With neither credential passed nor set, the constructor does raise:
    the client id is looked up first. *)
Lemma new_without_credentials :
  let w := fixed_world ∅ 100 token_response empty_response in
  new w None None []
  = (Raise (ValueError "SPOTIFY_CLIENT_ID environment variable not set."), []).
Proof. vm_compute. reflexivity. Qed.

(** ** Requests *)

Lemma count_if_app (p : Event -> bool) (a b : list Event) :
  count_if p (a ++ b) = count_if p a + count_if p b.
Proof. unfold count_if. now rewrite List.filter_app, length_app. Qed.

Lemma count_if_cons (p : Event -> bool) (x : Event) (l : list Event) :
  count_if p (x :: l) = (if p x then 1 else 0) + count_if p l.
Proof. unfold count_if. simpl. now destruct (p x). Qed.

Lemma count_if_none (p : Event -> bool) (l : list Event) (x : Event) :
  count_if p l = 0 -> x ∈ l -> p x = false.
Proof.
  induction l as [|y l IH]; intros Hc Hin.
  - now apply elem_of_nil in Hin.
  - rewrite count_if_cons in Hc.
    apply elem_of_cons in Hin as [-> | Hin].
    + destruct (p y); [discriminate | reflexivity].
    + apply IH; [lia | assumption].
Qed.

Section Requests.

Variable w : World.

Lemma make_request_eq (endpoint : string) :
  make_request w endpoint = (refresh_token w ;; send w endpoint).
Proof. reflexivity. Qed.

Lemma is_token_expired_run (st : St) :
  snd (is_token_expired w st)
  = mkSt (self st) (trace st ++ [EvTime (clock w (trace st))]).
Proof.
  destruct st as [[cid sec tu bu at_ te] tr].
  unfold is_token_expired. run; reflexivity.
Qed.

Lemma authenticate_run (st : St) :
  exists evs,
    trace (snd (authenticate w st)) = (trace st ++ evs)%list
    /\ base_url (self (snd (authenticate w st))) = base_url (self st)
    /\ count_if is_get evs = 0
    /\ count_if is_post evs <= 1
    /\ (fst (authenticate w st) = Ok tt -> count_if is_post evs = 1).
Proof.
  destruct st as [[cid sec tu bu at_ te] tr].
  unfold authenticate, client_id, client_secret.
  run; rewrite <- ?app_assoc; simpl;
    (eexists; split; [first [reflexivity | symmetry; apply app_nil_r] |]);
    cbv [count_if List.filter is_get is_post length];
    repeat split; try lia; discriminate.
Qed.

Lemma send_run (endpoint : string) (st : St) :
  exists r tail,
    trace (snd (send w endpoint st))
    = (trace st ++
       EvLog DEBUG ("Making request to endpoint: " ++ (base_url (self st) ++ endpoint))
       :: EvGet (base_url (self st) ++ endpoint) (Bearer (access_token (self st))) r
       :: tail)%list
    /\ count_if is_get tail = 0
    /\ count_if is_post tail = 0
    /\ fst (send w endpoint st) = read_response r.
Proof.
  destruct st as [[cid sec tu bu at_ te] tr].
  unfold send. run; rewrite <- ?app_assoc; simpl;
    do 2 eexists; (split; [reflexivity |]);
    (split; [reflexivity |]); (split; [reflexivity |]);
    unfold read_response; simpl;
    repeat match goal with H : _ = _ |- _ => rewrite H; simpl end;
    reflexivity.
Qed.

Lemma refresh_token_eq (st : St) :
  refresh_token w st
  = match is_token_expired w st with
    | (Ok true, st1) =>
        authenticate w (snd (logger INFO "Token expired, refreshing..." st1))
    | (Ok false, st1) => (Ok tt, st1)
    | (Raise e, st1) => (Raise e, st1)
    end.
Proof.
  unfold refresh_token, bind.
  destruct (is_token_expired w st) as [[[|]|e] st1]; reflexivity.
Qed.

(** C1. A run of [make_request] is the events of [refresh_token]
  followed by the events [rest] of the request proper. No GET happens
  during the refresh and no POST after it, the refresh holds at most
  one POST and the rest at most one GET. When the freshness check
  answers false, [refresh_token] returns at once and nothing is
  posted. When it answers true, [refresh_token] is one run of
  [authenticate], which posts exactly once if it returns; if it
  raises, [make_request] raises the same exception in the same state
  and [rest] is empty. A GET is sent only after [refresh_token] has
  returned, that is after a check that answered false or after a
  re-authentication that returned, and it carries the token stored at
  that point. *)
Theorem make_request_refreshes_once (endpoint : string) (st : St) :
let checked := is_token_expired w st in
let st1 := snd (logger INFO "Token expired, refreshing..." (snd checked)) in
let refresh := events_of (refresh_token w) st in
exists rest,
  trace (snd (make_request w endpoint st)) = (trace st ++ refresh ++ rest)%list
  /\ count_if is_get refresh = 0
  /\ count_if is_post refresh <= 1
  /\ count_if is_post rest = 0
  /\ count_if is_get rest <= 1
  /\ (fst checked = Ok false ->
        refresh_token w st = (Ok tt, snd checked)
        /\ count_if is_post refresh = 0)
  /\ (fst checked = Ok true ->
        refresh_token w st = authenticate w st1
        /\ (fst (authenticate w st1) = Ok tt -> count_if is_post refresh = 1)
        /\ (forall e, fst (authenticate w st1) = Raise e ->
              make_request w endpoint st = (Raise e, snd (authenticate w st1))
              /\ rest = []))
  /\ (forall url auth r, EvGet url auth r ∈ (refresh ++ rest)%list ->
        fst (refresh_token w st) = Ok tt
        /\ (fst checked = Ok false
            \/ (fst checked = Ok true /\ fst (authenticate w st1) = Ok tt))
        /\ auth = Bearer (access_token (self (snd (refresh_token w st))))).
Proof.
intros checked st1 refresh. subst checked st1 refresh.
rewrite make_request_eq. unfold bind at 1.
unfold events_of. rewrite !refresh_token_eq.
pose proof (is_token_expired_run st) as Hc.
destruct (is_token_expired w st) as [[[|]|e] s1] eqn:Hexp;
  simpl in Hc; subst s1; simpl.
- (* expired: one run of authenticate *)
  set (st1 := {| self := self st; trace := _ |}).
  destruct (authenticate_run st1) as (evs & Htr & Hbase & Hget & Hpost & Hone).
  destruct (authenticate w st1) as [[[]|e] s2] eqn:Ha; simpl in *.
  + destruct (send_run endpoint s2) as (r & tail & Hs & Hg & Hp & _).
    eexists (_ :: _ :: tail).
    rewrite Hs, Htr. subst st1. simpl. events.
    split; [reflexivity |].
    rewrite !count_if_cons. simpl.
    repeat match goal with |- _ /\ _ => split end;
      try (unfold count_if in *; simpl; lia); try discriminate.
    * intros _. split; [reflexivity |]. split; [auto |]. discriminate.
    * intros url auth r0 Hin.
      repeat (apply elem_of_cons in Hin as [Hin | Hin]; [discriminate Hin |]).
      apply elem_of_app in Hin as [Hin | Hin];
        [pose proof (count_if_none _ _ _ Hget Hin); discriminate |].
      apply elem_of_cons in Hin as [Hin | Hin]; [discriminate Hin |].
      apply elem_of_cons in Hin as [Hin | Hin];
        [| pose proof (count_if_none _ _ _ Hg Hin); discriminate].
      injection Hin as -> -> ->. auto.
  + exists []. rewrite Htr. subst st1. simpl. events.
    rewrite !count_if_cons. simpl.
    repeat match goal with |- _ /\ _ => split end;
      try (unfold count_if in *; simpl; lia); try discriminate; try reflexivity.
    * now rewrite app_nil_r.
    * intros _. split; [reflexivity |]. split; [discriminate |].
      intros e' [= <-]. split; [| reflexivity].
      unfold bind. rewrite refresh_token_eq, Hexp. simpl.
      now rewrite Ha.
    * intros url auth r0 Hin. rewrite app_nil_r in Hin.
      repeat (apply elem_of_cons in Hin as [Hin | Hin]; [discriminate Hin |]).
      pose proof (count_if_none _ _ _ Hget Hin); discriminate.
- (* fresh: no run of authenticate *)
  set (st1 := {| self := self st; trace := _ |}).
  destruct (send_run endpoint st1) as (r & tail & Hs & Hg & Hp & _).
  eexists (_ :: _ :: tail).
  rewrite Hs. subst st1. simpl. events.
  split; [reflexivity |].
  rewrite !count_if_cons. simpl.
  repeat match goal with |- _ /\ _ => split end;
    try (unfold count_if in *; simpl; lia); try discriminate; try reflexivity.
  + intros _. split; reflexivity.
  + intros url auth r0 Hin.
    repeat (apply elem_of_cons in Hin as [Hin | Hin]; [discriminate Hin |]).
    apply elem_of_cons in Hin as [Hin | Hin];
      [| pose proof (count_if_none _ _ _ Hg Hin); discriminate].
    injection Hin as -> -> ->. auto.
- (* the check itself raised *)
  exists []. events.
  repeat match goal with |- _ /\ _ => split end;
    try (unfold count_if in *; simpl; lia); try discriminate; try reflexivity.
  intros url auth r0 Hin.
  repeat (apply elem_of_cons in Hin as [Hin | Hin]; [discriminate Hin |]).
  now apply elem_of_nil in Hin.
Qed.
End Requests.

(** ** Fetching *)

Section Fetching.

Variable w : World.

Lemma refresh_token_run (st : St) :
  exists evs,
    trace (snd (refresh_token w st)) = (trace st ++ evs)%list
    /\ count_if is_get evs = 0
    /\ base_url (self (snd (refresh_token w st))) = base_url (self st).
Proof.
  rewrite refresh_token_eq.
  pose proof (is_token_expired_run w st) as Hc.
  destruct (is_token_expired w st) as [[[|]|e] s1]; simpl in Hc; subst s1.
  - match goal with |- context [authenticate w ?s] =>
      destruct (authenticate_run w s) as (evs & Htr & Hbase & Hget & _)
    end.
    simpl in *. exists (EvTime (clock w (trace st))
                        :: EvLog INFO "Token expired, refreshing..." :: evs).
    rewrite Htr, Hbase, !count_if_cons, <- !app_assoc. simpl. auto.
  - exists [EvTime (clock w (trace st))]. simpl. auto.
  - exists [EvTime (clock w (trace st))]. simpl. auto.
Qed.

(** The one GET of a run of [make_request] decides its result. *)
Lemma make_request_run (endpoint : string) (st : St) :
  exists evs,
    trace (snd (make_request w endpoint st)) = (trace st ++ evs)%list
    /\ forall url auth r,
         EvGet url auth r ∈ evs ->
         fst (make_request w endpoint st) = read_response r
         /\ url = base_url (self st) ++ endpoint.
Proof.
  rewrite make_request_eq. unfold bind.
  destruct (refresh_token_run st) as (evs & Htr & Hget & Hbase).
  destruct (refresh_token w st) as [[[]|e] s1]; simpl in *.
  - destruct (send_run w endpoint s1) as (r & tail & Hs & Hg & _ & Hres).
    eexists. rewrite Hs, Htr, <- app_assoc. split; [reflexivity |].
    intros url auth r0 Hin.
    apply elem_of_app in Hin as [Hin | Hin];
      [pose proof (count_if_none _ _ _ Hget Hin); discriminate |].
    apply elem_of_cons in Hin as [Hin | Hin]; [discriminate Hin |].
    apply elem_of_cons in Hin as [Hin | Hin];
      [| pose proof (count_if_none _ _ _ Hg Hin); discriminate].
    injection Hin as -> -> ->. rewrite Hbase in *. auto.
  - exists evs. split; [assumption |].
    intros url auth r0 Hin.
    pose proof (count_if_none _ _ _ Hget Hin); discriminate.
Qed.

Lemma fetch_eq {A} (endpoint before : string) (project : PyVal -> Result A)
    (after : A -> string) (st : St) :
  fetch w endpoint before project after st
  = match make_request w endpoint (snd (logger DEBUG before st)) with
    | (Raise e, s) => (Raise e, s)
    | (Ok data, s) =>
        match project data with
        | Raise e => (Raise e, s)
        | Ok x => (Ok x, snd (logger INFO (after x) s))
        end
    end.
Proof.
  unfold fetch, bind, lift, ret. simpl.
  destruct (make_request w endpoint _) as [[data|e] s]; [| reflexivity].
  destruct (project data); reflexivity.
Qed.

(** The GET of a fetching method decides its result, and goes to the
    method's endpoint under the base URL. *)
Lemma fetch_run {A} (endpoint before : string) (project : PyVal -> Result A)
    (after : A -> string) (st : St) (url : string) (auth : Authorization)
    (r : Result Response) :
  EvGet url auth r ∈ events_of (fetch w endpoint before project after) st ->
  fst (fetch w endpoint before project after st) = (read_response r >>= project)
  /\ url = base_url (self st) ++ endpoint.
Proof.
  unfold events_of. rewrite fetch_eq. simpl.
  set (st1 := {| self := self st; trace := _ |}).
  destruct (make_request_run endpoint st1) as (evs & Htr & Hres).
  destruct (make_request w endpoint st1) as [[data|e] s1]; simpl in *.
  - destruct (project data) as [x|e] eqn:Hp; simpl;
      rewrite Htr; subst st1; simpl; events; intros Hin;
      (apply elem_of_cons in Hin as [Hin | Hin]; [discriminate Hin |]).
    + apply elem_of_app in Hin as [Hin | Hin].
      * destruct (Hres _ _ _ Hin) as [<- ->]. simpl. auto.
      * apply list_elem_of_singleton in Hin. discriminate.
    + destruct (Hres _ _ _ Hin) as [<- ->]. simpl. auto.
  - rewrite Htr. subst st1. simpl. events. intros Hin.
    apply elem_of_cons in Hin as [Hin | Hin]; [discriminate Hin |].
    destruct (Hres _ _ _ Hin) as [<- ->]. auto.
Qed.

Lemma get_playlists_fetch (category_id : option string) (st : St) :
  get_playlists w category_id st
  = fetch w
      (if truthy category_id
       then "browse/categories/" ++ fmt category_id ++ "/playlists"
       else "browse/featured-playlists")
      ("Fetching playlists with endpoint: " ++
       (if truthy category_id
        then "browse/categories/" ++ fmt category_id ++ "/playlists"
        else "browse/featured-playlists"))
      playlist_ids_of
      (fun ids => "Fetched " ++ pretty (length ids) ++ " playlists.") st.
Proof.
  rewrite fetch_eq. unfold get_playlists, playlist_ids_of, bind, lift, ret. simpl.
  destruct (make_request w _ _) as [[data|e] s]; [| reflexivity].
  destruct (py_get data "playlists" (PDict [])) as [p|e]; [| reflexivity]. simpl.
  destruct (py_get p "items" (PList [])) as [items|e]; [| reflexivity]. simpl.
  destruct (py_iter items >>= comprehension (key "id")); reflexivity.
Qed.

Lemma get_playlist_tracks_fetch (playlist_id : string) (st : St) :
  get_playlist_tracks w playlist_id st
  = fetch w ("playlists/" ++ playlist_id ++ "/tracks")
      ("Fetching tracks from playlist with endpoint: "
       ++ ("playlists/" ++ playlist_id ++ "/tracks"))
      (fun data => py_get data "items" (PList []) >>= py_iter
                   >>= comprehension track_detail)
      (fun l => "Fetched " ++ pretty (length l)
                ++ " tracks from playlist " ++ playlist_id ++ ".") st.
Proof.
  rewrite fetch_eq. unfold get_playlist_tracks, bind, lift, ret. simpl.
  destruct (make_request w _ _) as [[data|e] s]; [| reflexivity].
  destruct (py_get data "items" (PList [])) as [items|e]; [| reflexivity]. simpl.
  destruct (py_iter items >>= comprehension track_detail); reflexivity.
Qed.

Lemma get_user_playlists_fetch (st : St) :
  get_user_playlists w st
  = fetch w "me/playlists"
      "Fetching user's playlists with endpoint: me/playlists"
      (fun data => py_get data "items" (PList []) >>= py_iter
                   >>= comprehension user_playlist)
      (fun l => "Fetched " ++ pretty (length l) ++ " user playlists.") st.
Proof.
  rewrite fetch_eq. unfold get_user_playlists, bind, lift, ret. simpl.
  destruct (make_request w _ _) as [[data|e] s]; [| reflexivity].
  destruct (py_get data "items" (PList [])) as [items|e]; [| reflexivity]. simpl.
  destruct (py_iter items >>= comprehension user_playlist); reflexivity.
Qed.

Lemma comprehension_Forall2 {A B} (f : A -> Result B) (l : list A) (l' : list B) :
  Forall2 (fun x y => f x = Ok y) l l' -> comprehension f l = Ok l'.
Proof.
  induction 1 as [|x y l l' Hxy _ IH]; simpl; [reflexivity |].
  now rewrite Hxy, IH.
Qed.

Lemma track_detail_item (item : PyVal) (t : TrackSummary) :
  track_item item t -> track_detail item = Ok (summary t).
Proof.
  intros (track & first & others & Htrack & Hname & Hartists & Hfirst & Hid).
  unfold track_detail, key. rewrite Htrack. simpl.
  rewrite Hname, Hartists. simpl. rewrite Hfirst. simpl.
  now rewrite Hid.
Qed.

(** Digits and a sign hold no comma, so the status and the body can be
    read back from the message of a request error. *)
Lemma pretty_N_go_no_comma (x : N) (s : string) :
  no_comma s = true -> no_comma (pretty_N_go x s) = true.
Proof.
  revert s. induction (N.lt_wf_0 x) as [x _ IH]; intros s Hs.
  destruct (decide (x = 0)%N) as [-> | Hx].
  - now rewrite pretty_N_go_0.
  - rewrite pretty_N_go_step by lia. apply IH.
    + apply N.div_lt; lia.
    + simpl. rewrite Hs. unfold pretty_N_char.
      repeat case_match; reflexivity.
Qed.

Lemma pretty_Z_no_comma (z : Z) : no_comma (pretty z) = true.
Proof.
  assert (forall n : N, no_comma (pretty n) = true) as HN.
  { intros n. unfold pretty, pretty_N. case_decide; [reflexivity |].
    now apply pretty_N_go_no_comma. }
  destruct z as [|p|p]; [reflexivity | apply HN |].
  change (no_comma ("-" ++ pretty (N.pos p)) = true). simpl. apply HN.
Qed.

Lemma split_at_comma (d d' t t' : string) :
  no_comma d = true -> no_comma d' = true ->
  d ++ String "," t = d' ++ String "," t' -> d = d' /\ t = t'.
Proof.
  revert d'. induction d as [|c d IH]; intros [|c' d']; simpl; intros Hd Hd' Heq.
  - now injection Heq as ->.
  - injection Heq as <- _. simpl in Hd'. discriminate.
  - injection Heq as -> _. simpl in Hd. discriminate.
  - injection Heq as -> Heq.
    apply andb_true_iff in Hd as [_ Hd]. apply andb_true_iff in Hd' as [_ Hd'].
    destruct (IH d' Hd Hd' Heq) as [-> ->]. auto.
Qed.

Lemma request_error_inj (status status' : Z) (body body' : string) :
  request_error status body = request_error status' body' ->
  status = status' /\ body = body'.
Proof.
  unfold request_error. intros Heq. injection Heq as Heq.
  apply split_at_comma in Heq as [Hs Hb]; try apply pretty_Z_no_comma.
  split; [now apply (inj pretty) | now injection Hb].
Qed.

(** C5. The answer to the GET of [make_request] decides the call: a
    status other than 200 raises, to the caller, the request error made
    of the status and the text of the body, from which both can be read
    back; status 200 returns the parsed body. *)
Theorem make_request_status (endpoint : string) (st : St)
    (url : string) (auth : Authorization) (resp : Response) :
  EvGet url auth (Ok resp) ∈ events_of (make_request w endpoint) st ->
  (status_code resp <> 200%Z ->
     fst (make_request w endpoint st)
     = Raise (Exception ("Error fetching data from Spotify API: "
                         ++ pretty (status_code resp) ++ ", " ++ text resp)))
  /\ (forall status body,
        request_error (status_code resp) (text resp) = request_error status body ->
        status = status_code resp /\ body = text resp)
  /\ (forall v, status_code resp = 200%Z -> json resp = Some v ->
        fst (make_request w endpoint st) = Ok v).
Proof.
  intros Hin.
  destruct (make_request_run endpoint st) as (evs & Htr & Hres).
  rewrite (events_of_app _ _ _ Htr) in Hin.
  destruct (Hres _ _ _ Hin) as [-> _]. unfold read_response.
  split; [| split].
  - intros Hne. now destruct (decide (status_code resp = 200%Z)).
  - intros status body Heq. apply request_error_inj in Heq as [-> ->]. auto.
  - intros v H200 Hv. destruct (decide (status_code resp = 200%Z)); [| done].
    now rewrite Hv.
Qed.

(** The fetching methods do not catch what [make_request] raises. *)
Lemma fetch_surfaces_request_error {A} (endpoint before : string)
    (project : PyVal -> Result A) (after : A -> string) (st : St)
    (url : string) (auth : Authorization) (resp : Response) :
  EvGet url auth (Ok resp) ∈ events_of (fetch w endpoint before project after) st ->
  status_code resp <> 200%Z ->
  fst (fetch w endpoint before project after st)
  = Raise (request_error (status_code resp) (text resp)).
Proof.
  intros Hin Hne. destruct (fetch_run _ _ _ _ _ _ _ _ Hin) as [-> _].
  unfold read_response. now destruct (decide (status_code resp = 200%Z)).
Qed.

(** C6, as the code has it. Whatever GET [get_playlists] sends goes to
    the category listing when a category id is given (a non-empty
    string) and to the featured listing when it is [None]. When the
    answer is a 200 whose body is an object, the call returns the [id]
    of each item under playlists→items, in order, and the empty list
    when the key [playlists] is absent, when the key [items] is absent,
    or when [items] is an empty list. *)
Theorem get_playlists_ids (category_id : option string) (st : St)
    (url : string) (auth : Authorization) (r : Result Response) :
  EvGet url auth r ∈ events_of (get_playlists w category_id) st ->
  (category_id = None ->
     url = base_url (self st) ++ "browse/featured-playlists")
  /\ (forall c, category_id = Some c -> c <> "" ->
        url = base_url (self st) ++ "browse/categories/" ++ c ++ "/playlists")
  /\ (forall resp data,
        r = Ok resp ->
        status_code resp = 200%Z ->
        json resp = Some (PDict data) ->
        (forall playlists items ids,
           assoc "playlists" data = Some (PDict playlists) ->
           assoc "items" playlists = Some (PList items) ->
           Forall2 (fun item id => py_getitem item "id" = Ok id) items ids ->
           fst (get_playlists w category_id st) = Ok ids)
        /\ (assoc "playlists" data = None ->
              fst (get_playlists w category_id st) = Ok [])
        /\ (forall playlists,
              assoc "playlists" data = Some (PDict playlists) ->
              assoc "items" playlists = None
              \/ assoc "items" playlists = Some (PList []) ->
              fst (get_playlists w category_id st) = Ok [])).
Proof.
  intros Hin.
  unfold events_of in Hin. rewrite get_playlists_fetch in *.
  apply fetch_run in Hin as [Hres ->]. rewrite Hres. clear Hres.
  split; [| split].
  - now intros ->.
  - intros c -> Hc. simpl.
    now destruct (String.eqb_spec c "").
  - intros resp data -> H200 Hjson.
    unfold read_response. destruct (decide (status_code resp = 200%Z)); [| done].
    rewrite Hjson. unfold playlist_ids_of. simpl.
    split; [| split].
    + intros playlists items ids -> Hitems Hids. simpl. rewrite Hitems. simpl.
      now apply comprehension_Forall2.
    + now intros ->.
    + intros playlists -> Hitems. simpl.
      destruct Hitems as [-> | ->]; reflexivity.
Qed.

(** C7. On a 200 answer whose body has a list of [items], each with a
    track object that has the expected fields, [get_playlist_tracks]
    returns one record per item, in order: the name of the track, the
    name of the first of its artists, and its id. *)
Theorem get_playlist_tracks_projects (playlist_id : string) (st : St)
    (url : string) (auth : Authorization) (resp : Response)
    (data : list (string * PyVal)) (items : list PyVal)
    (tracks : list TrackSummary) :
  EvGet url auth (Ok resp) ∈ events_of (get_playlist_tracks w playlist_id) st ->
  status_code resp = 200%Z ->
  json resp = Some (PDict data) ->
  assoc "items" data = Some (PList items) ->
  Forall2 track_item items tracks ->
  fst (get_playlist_tracks w playlist_id st) = Ok (map summary tracks)
  /\ length (map summary tracks) = length items
  /\ url = base_url (self st) ++ "playlists/" ++ playlist_id ++ "/tracks".
Proof.
  intros Hin H200 Hjson Hitems Htracks.
  unfold events_of in Hin. rewrite get_playlist_tracks_fetch in *.
  apply fetch_run in Hin as [Hres ->]. rewrite Hres. clear Hres.
  unfold read_response. destruct (decide (status_code resp = 200%Z)); [| done].
  rewrite Hjson. simpl. rewrite Hitems. simpl.
  split; [| split; [| reflexivity]].
  - apply comprehension_Forall2. clear Hitems.
    induction Htracks as [|item t items tracks Hitem _ IH]; simpl;
      constructor; [now apply track_detail_item | assumption].
  - rewrite length_map. symmetry. eapply Forall2_length, Htracks.
Qed.

(** When the refresh returns, [make_request] sends its GET. *)
Lemma make_request_sends (endpoint : string) (st : St) :
  fst (refresh_token w st) = Ok tt ->
  exists auth r,
    EvGet (base_url (self st) ++ endpoint) auth r
    ∈ events_of (make_request w endpoint) st.
Proof.
  unfold events_of. rewrite make_request_eq. unfold bind.
  destruct (refresh_token_run st) as (evs & Htr & _ & Hbase).
  destruct (refresh_token w st) as [[[]|e] s1]; [| discriminate].
  simpl in *. intros _.
  destruct (send_run w endpoint s1) as (r & tail & Hs & _).
  rewrite Hs, Htr, Hbase, <- app_assoc, drop_app_length.
  do 2 eexists. apply elem_of_app. right.
  apply list_elem_of_further. apply list_elem_of_here.
Qed.

(** A fetching method logs its endpoint, then runs [make_request] on
    it. *)
Lemma fetch_events {A} (endpoint before : string) (project : PyVal -> Result A)
    (after : A -> string) (st : St) :
  exists rest,
    events_of (fetch w endpoint before project after) st
    = (EvLog DEBUG before
       :: events_of (make_request w endpoint) (snd (logger DEBUG before st))
       ++ rest)%list.
Proof.
  unfold events_of at 1. rewrite fetch_eq. simpl.
  set (st1 := {| self := self st; trace := _ |}).
  destruct (make_request_run endpoint st1) as (evs & Htr & _).
  rewrite (events_of_app _ _ _ Htr).
  destruct (make_request w endpoint st1) as [[data|e] s1]; simpl in *.
  - destruct (project data) as [x|e]; simpl; rewrite Htr; subst st1; simpl.
    + exists [EvLog INFO (after x)]. rewrite <- !app_assoc.
      rewrite drop_app_length. reflexivity.
    + exists []. rewrite <- !app_assoc, drop_app_length, app_nil_r.
      reflexivity.
  - exists []. rewrite Htr. subst st1. simpl.
    rewrite <- !app_assoc, drop_app_length, app_nil_r. reflexivity.
Qed.

(** C9. An empty string for a category id is the call without one. The
    call logs the featured listing for its endpoint and runs
    [make_request] on it; when the refresh returns, a GET to the
    featured listing is sent; and no GET of the call goes anywhere
    else, in particular not to a category listing with an empty name. *)
Theorem get_playlists_empty_category (st : St) :
  let evs := events_of (get_playlists w (Some "")) st in
  let before := "Fetching playlists with endpoint: browse/featured-playlists" in
  let st1 := snd (logger DEBUG before st) in
  get_playlists w (Some "") st = get_playlists w None st
  /\ (exists rest,
        evs = (EvLog DEBUG before
               :: events_of (make_request w "browse/featured-playlists") st1
               ++ rest)%list)
  /\ (fst (refresh_token w st1) = Ok tt ->
      exists auth r,
        EvGet (base_url (self st) ++ "browse/featured-playlists") auth r ∈ evs)
  /\ (forall url auth r,
        EvGet url auth r ∈ evs ->
        url = base_url (self st) ++ "browse/featured-playlists"
        /\ url <> base_url (self st) ++ "browse/categories//playlists").
Proof.
  intros evs before st1.
  assert (evs = events_of
                  (fetch w "browse/featured-playlists" before playlist_ids_of
                     (fun ids => "Fetched " ++ pretty (length ids) ++ " playlists."))
                  st) as ->.
  { subst evs. unfold events_of. now rewrite get_playlists_fetch. }
  split; [reflexivity |].
  destruct (fetch_events "browse/featured-playlists" before playlist_ids_of
              (fun ids => "Fetched " ++ pretty (length ids) ++ " playlists.") st)
    as (rest & Hev).
  split; [exists rest; exact Hev |]. split.
  - intros Href.
    destruct (make_request_sends "browse/featured-playlists" st1 Href)
      as (auth & r & Hin).
    exists auth, r. rewrite Hev.
    apply list_elem_of_further. apply elem_of_app. left. exact Hin.
  - intros url auth r Hin.
    apply fetch_run in Hin as [_ ->].
    split; [reflexivity |].
    intros Heq. apply (inj (String.append _)) in Heq. discriminate.
Qed.

End Fetching.

(** ** The theorems at the fixtures *)

Lemma make_request_status_witness :
  let w := fixed_world ∅ 100 token_response unauthorized in
  fst (make_request w "me/playlists" fresh)
  = Raise (Exception "Error fetching data from Spotify API: 401, Unauthorized").
Proof.
  destruct (make_request_status
              (fixed_world ∅ 100 token_response unauthorized)
              "me/playlists" fresh
              "https://api.spotify.com/v1/me/playlists"
              (Bearer (PStr "T0")) unauthorized) as (Hraise & _ & _).
  - vm_compute. do 2 apply list_elem_of_further. apply list_elem_of_here.
  - apply Hraise. discriminate.
Defined.

Lemma get_playlists_ids_witness :
  let w := fixed_world ∅ 100 token_response (ok_response playlists_body) in
  "https://api.spotify.com/v1/browse/categories/rock/playlists"
  = base_url (self fresh) ++ "browse/categories/" ++ "rock" ++ "/playlists"
  /\ fst (get_playlists w (Some "rock") fresh) = Ok [PStr "p1"; PStr "p2"].
Proof.
  destruct (get_playlists_ids
              (fixed_world ∅ 100 token_response (ok_response playlists_body))
              (Some "rock") fresh
              "https://api.spotify.com/v1/browse/categories/rock/playlists"
              (Bearer (PStr "T0")) (Ok (ok_response playlists_body)))
    as (_ & Hurl & Hbody).
  - vm_compute. do 3 apply list_elem_of_further. apply list_elem_of_here.
  - split; [apply (Hurl "rock"); [reflexivity | discriminate] |].
    destruct (Hbody (ok_response playlists_body)
                [("playlists",
                  PDict [("items",
                          PList [PDict [("id", PStr "p1"); ("name", PStr "One")];
                                 PDict [("id", PStr "p2"); ("name", PStr "Two")]])])]
                eq_refl eq_refl eq_refl) as (Hids & _).
    eapply Hids; [reflexivity | reflexivity |].
    repeat constructor.
Defined.

(** C6 as stated fails: a [playlists] that is there and is [null] is
    not a missing one for the code. The GET is sent and answered 200
    with the object [{playlists: null}], and the call raises, because
    [None] has no [get], where the claim has the empty list. *)
Lemma get_playlists_null :
  let body := PDict [("playlists", PNone)] in
  let w := fixed_world ∅ 100 token_response (ok_response body) in
  EvGet "https://api.spotify.com/v1/browse/featured-playlists"
    (Bearer (PStr "T0")) (Ok (ok_response body))
  ∈ events_of (get_playlists w None) fresh
  /\ status_code (ok_response body) = 200%Z
  /\ fst (get_playlists w None fresh) = Raise AttributeError
  /\ fst (get_playlists w None fresh) <> Ok [].
Proof.
  vm_compute. split; [| repeat split; discriminate].
  do 3 apply list_elem_of_further. apply list_elem_of_here.
Qed.

Lemma get_playlists_empty_category_witness :
  let w := fixed_world ∅ 100 token_response (ok_response playlists_body) in
  exists auth r,
    EvGet (base_url (self fresh) ++ "browse/featured-playlists") auth r
    ∈ events_of (get_playlists w (Some "")) fresh.
Proof.
  destruct (get_playlists_empty_category
              (fixed_world ∅ 100 token_response (ok_response playlists_body))
              fresh) as (_ & _ & Hsends & _).
  apply Hsends. vm_compute. reflexivity.
Defined.

Lemma get_playlist_tracks_projects_witness :
  let w := fixed_world ∅ 100 token_response (ok_response tracks_body) in
  fst (get_playlist_tracks w "abc" fresh)
  = Ok [PDict [("name", PStr "Song A"); ("artist", PStr "Ann"); ("id", PStr "t1")];
        PDict [("name", PStr "Song B"); ("artist", PStr "Cy"); ("id", PStr "t2")]].
Proof.
  destruct (get_playlist_tracks_projects
              (fixed_world ∅ 100 token_response (ok_response tracks_body))
              "abc" fresh
              "https://api.spotify.com/v1/playlists/abc/tracks"
              (Bearer (PStr "T0")) (ok_response tracks_body)
              [("items",
                PList [PDict [("track",
                               PDict [("name", PStr "Song A");
                                      ("artists", PList [artist "Ann"; artist "Bob"]);
                                      ("id", PStr "t1")])];
                       PDict [("track",
                               PDict [("name", PStr "Song B");
                                      ("artists", PList [artist "Cy"; artist "Dee"]);
                                      ("id", PStr "t2")])]])]
              [PDict [("track",
                       PDict [("name", PStr "Song A");
                              ("artists", PList [artist "Ann"; artist "Bob"]);
                              ("id", PStr "t1")])];
               PDict [("track",
                       PDict [("name", PStr "Song B");
                              ("artists", PList [artist "Cy"; artist "Dee"]);
                              ("id", PStr "t2")])]]
              [mkTrack (PStr "Song A") (PStr "Ann") (PStr "t1");
               mkTrack (PStr "Song B") (PStr "Cy") (PStr "t2")])
    as (Hres & _ & _).
  - vm_compute. do 3 apply list_elem_of_further. apply list_elem_of_here.
  - reflexivity.
  - reflexivity.
  - reflexivity.
  - repeat constructor; unfold track_item; do 3 eexists; simpl;
      repeat split; reflexivity.
  - exact Hres.
Defined.

(** A call with a stale token: one POST, then the GET with the new
    token. *)
Example make_request_stale :
  let w := fixed_world ∅ 100 token_response (ok_response playlists_body) in
  make_request w "browse/featured-playlists" stale
  = (Ok playlists_body,
     mkSt (mkConnector (Some "id") (Some "secret")
             "https://accounts.spotify.com/api/token"
             "https://api.spotify.com/v1/"
             (PStr "T1") (Some 3700%Q))
       [EvTime 100;
        EvLog INFO "Token expired, refreshing...";
        EvPost "https://accounts.spotify.com/api/token"
          (Basic "aWQ6c2VjcmV0") [("grant_type", "client_credentials")]
          (Ok token_response);
        EvTime 100;
        EvLog DEBUG
          "Making request to endpoint: https://api.spotify.com/v1/browse/featured-playlists";
        EvGet "https://api.spotify.com/v1/browse/featured-playlists"
          (Bearer (PStr "T1")) (Ok (ok_response playlists_body))]).
Proof. vm_compute. reflexivity. Qed.

(** The round trip of the specification: right after construction a
    call posts nothing. *)
Example make_request_after_new :
  let w := fixed_world ∅ 100 token_response (ok_response playlists_body) in
  exists c history,
    new w (Some "id") (Some "secret") [] = (Ok c, history)
    /\ count_if is_post history = 1
    /\ count_if is_post
         (events_of (make_request w "me/playlists") (mkSt c history)) = 0.
Proof. do 2 eexists. vm_compute. repeat split. Qed.


(** ** More on authentication *)

(** What a run of [authenticate] that returned has done. *)
Lemma authenticate_ok_run (w : World) (st : St) :
  fst (authenticate w st) = Ok tt ->
  exists url auth data resp info ttl e,
    let now := clock w (trace st ++ [EvPost url auth data (Ok resp)]) in
    trace (snd (authenticate w st))
    = (trace st ++ [EvPost url auth data (Ok resp); EvTime now])%list
    /\ status_code resp = 200%Z
    /\ json resp = Some info
    /\ py_getitem info "access_token" = Ok (access_token (self (snd (authenticate w st))))
    /\ py_getitem info "expires_in" = Ok ttl
    /\ py_add now ttl = Ok e
    /\ token_expiry (self (snd (authenticate w st))) = Some e
    /\ base_url (self (snd (authenticate w st))) = base_url (self st).
Proof.
  destruct st as [[cid sec tu bu at_ te] tr].
  unfold authenticate, client_id, client_secret.
  run; intros; simplify_eq; rewrite <- ?app_assoc; simpl;
    do 7 eexists; (split; [reflexivity |]); repeat split; eassumption.
Qed.

(** X1. On a 200 answer whose body has [access_token] and an
    [expires_in] that can be added to a float (a float, or an [int] that
    converts to one), [authenticate] returns, stores that token, and
    stores for expiry the float sum of the clock reading taken after the
    answer and [expires_in]; it has posted once and read the clock
    once. *)
Theorem authenticate_stores_token (w : World) (st : St)
    (url : string) (auth : Authorization) (data : list (string * string))
    (resp : Response) (info tok ttl : PyVal) (e : Q) :
  EvPost url auth data (Ok resp) ∈ events_of (authenticate w) st ->
  status_code resp = 200%Z ->
  json resp = Some info ->
  py_getitem info "access_token" = Ok tok ->
  py_getitem info "expires_in" = Ok ttl ->
  let now := clock w (trace st ++ [EvPost url auth data (Ok resp)]) in
  py_add now ttl = Ok e ->
  fst (authenticate w st) = Ok tt
  /\ token_state (snd (authenticate w st)) = (tok, Some e)
  /\ events_of (authenticate w) st = [EvPost url auth data (Ok resp); EvTime now].
Proof.
  destruct st as [[cid sec tu bu at_ te] tr].
  unfold events_of, token_state, authenticate, client_id, client_secret.
  run; events; intros Hin H200 Hjson Htok Httl Hadd; pick_event Hin;
    try congruence.
  all: rewrite Httl in *; simplify_eq; repeat split; congruence.
Qed.

Lemma authenticate_stores_token_witness :
  let w := fixed_world ∅ 100 token_response empty_response in
  fst (authenticate w stale) = Ok tt
  /\ token_state (snd (authenticate w stale)) = (PStr "T1", Some 3700%Q)
  /\ events_of (authenticate w) stale
     = [EvPost "https://accounts.spotify.com/api/token"
          (Basic (b64encode "id:secret"))
          [("grant_type", "client_credentials")] (Ok token_response);
        EvTime 100].
Proof.
  apply (authenticate_stores_token
           (fixed_world ∅ 100 token_response empty_response) stale
           "https://accounts.spotify.com/api/token"
           (Basic (b64encode "id:secret"))
           [("grant_type", "client_credentials")]
           token_response token_body (PStr "T1") (PInt 3600) 3700).
  - vm_compute. apply list_elem_of_here.
  - reflexivity.
  - reflexivity.
  - reflexivity.
  - reflexivity.
  - vm_compute. reflexivity.
Defined.

(** X2. Whatever [authenticate] posts goes to the object's [token_url],
    carries [Basic] base64 of [id:secret] for the credentials the object
    holds after the call, and the form [grant_type=client_credentials];
    it is the only POST of the call, and the call sends no GET. *)
Theorem authenticate_request (w : World) (st : St)
    (url : string) (auth : Authorization) (data : list (string * string))
    (r : Result Response) :
  EvPost url auth data r ∈ events_of (authenticate w) st ->
  let c := self (snd (authenticate w st)) in
  url = token_url (self st)
  /\ auth = Basic (b64encode (fmt (_client_id c) ++ ":" ++ fmt (_client_secret c)))
  /\ data = [("grant_type", "client_credentials")]
  /\ count_if is_post (events_of (authenticate w) st) = 1
  /\ count_if is_get (events_of (authenticate w) st) = 0.
Proof.
  destruct st as [[cid sec tu bu at_ te] tr].
  unfold events_of, authenticate, client_id, client_secret.
  run; events; intros Hin; pick_event Hin; repeat split; reflexivity.
Qed.

Lemma authenticate_request_witness :
  let w := fixed_world ∅ 100 token_response empty_response in
  let c := self (snd (authenticate w stale)) in
  "https://accounts.spotify.com/api/token" = token_url (self stale)
  /\ Basic (b64encode "id:secret")
     = Basic (b64encode (fmt (_client_id c) ++ ":" ++ fmt (_client_secret c)))
  /\ [("grant_type", "client_credentials")] = [("grant_type", "client_credentials")]
  /\ count_if is_post (events_of (authenticate w) stale) = 1
  /\ count_if is_get (events_of (authenticate w) stale) = 0.
Proof.
  apply (authenticate_request
           (fixed_world ∅ 100 token_response empty_response) stale
           "https://accounts.spotify.com/api/token"
           (Basic (b64encode "id:secret"))
           [("grant_type", "client_credentials")] (Ok token_response)).
  vm_compute. apply list_elem_of_here.
Defined.

(** X3. When [requests.post] itself raises, [authenticate] raises the
    same exception, both token fields stay as they were, and nothing
    else is sent. *)
Theorem authenticate_transport_error (w : World) (st : St)
    (url : string) (auth : Authorization) (data : list (string * string))
    (e : Exn) :
  EvPost url auth data (Raise e) ∈ events_of (authenticate w) st ->
  fst (authenticate w st) = Raise e
  /\ token_state (snd (authenticate w st)) = token_state st
  /\ events_of (authenticate w) st = [EvPost url auth data (Raise e)].
Proof.
  destruct st as [[cid sec tu bu at_ te] tr].
  unfold events_of, token_state, authenticate, client_id, client_secret.
  run; events; intros Hin; pick_event Hin; repeat split; congruence.
Qed.

Lemma authenticate_transport_error_witness :
  let e := RequestException "connection refused" in
  fst (authenticate offline_world stale) = Raise e
  /\ token_state (snd (authenticate offline_world stale)) = token_state stale
  /\ events_of (authenticate offline_world) stale
     = [EvPost "https://accounts.spotify.com/api/token"
          (Basic (b64encode "id:secret"))
          [("grant_type", "client_credentials")] (Raise e)].
Proof.
  apply (authenticate_transport_error offline_world stale
           "https://accounts.spotify.com/api/token"
           (Basic (b64encode "id:secret"))
           [("grant_type", "client_credentials")]
           (RequestException "connection refused")).
  vm_compute. apply list_elem_of_here.
Defined.

(** X4. On a 200 answer whose body gives no [access_token] (the key is
    missing, or the body is no object), [authenticate] raises the error
    of that lookup and both token fields stay as they were. *)
Theorem authenticate_no_access_token (w : World) (st : St)
    (url : string) (auth : Authorization) (data : list (string * string))
    (resp : Response) (info : PyVal) (e : Exn) :
  EvPost url auth data (Ok resp) ∈ events_of (authenticate w) st ->
  status_code resp = 200%Z ->
  json resp = Some info ->
  py_getitem info "access_token" = Raise e ->
  fst (authenticate w st) = Raise e
  /\ token_state (snd (authenticate w st)) = token_state st.
Proof.
  destruct st as [[cid sec tu bu at_ te] tr].
  unfold events_of, token_state, authenticate, client_id, client_secret.
  run; events; intros Hin H200 Hjson Htok; pick_event Hin;
    try congruence; split; congruence.
Qed.

Lemma authenticate_no_access_token_witness :
  let w := fixed_world ∅ 100 empty_response empty_response in
  fst (authenticate w stale) = Raise (KeyError "access_token")
  /\ token_state (snd (authenticate w stale)) = token_state stale.
Proof.
  apply (authenticate_no_access_token
           (fixed_world ∅ 100 empty_response empty_response) stale
           "https://accounts.spotify.com/api/token"
           (Basic (b64encode "id:secret"))
           [("grant_type", "client_credentials")]
           empty_response (PDict []) (KeyError "access_token")).
  - vm_compute. apply list_elem_of_here.
  - reflexivity.
  - reflexivity.
  - reflexivity.
Defined.

(** ** More on credentials *)

(** X5. A credential that was found is not looked up again: after an
    access of [client_id] that returned, and after an access of
    [client_secret] that returned a secret, the same access returns the
    same value and leaves the object as it is, whatever the environment
    has become. *)
Theorem credentials_cached (w w' : World) (st : St) :
  (forall v st1, client_id w st = (Ok v, st1) -> client_id w' st1 = (Ok v, st1))
  /\ (forall s st1, client_secret w st = (Ok (Some s), st1) ->
        client_secret w' st1 = (Ok (Some s), st1)).
Proof.
  destruct st as [[cid sec tu bu at_ te] tr].
  unfold client_id, client_secret. split; intros v st1.
  - run; intros; simplify_eq; run; try congruence.
    all: destruct (getenv w "SPOTIFY_CLIENT_ID"); [congruence | discriminate].
  - run; intros; simplify_eq; run; congruence.
Qed.

(** A secret that was not found is looked up again, and found when the
    environment has it by then. *)
Example client_secret_found_later :
  let w := fixed_world ∅ 100 token_response empty_response in
  let st := mkSt (mkConnector (Some "id") None "" "" PNone None) [] in
  fst (client_secret w st) = Ok None
  /\ fst (client_secret world_with_secret (snd (client_secret w st))) = Ok (Some "s3").
Proof. vm_compute. split; reflexivity. Qed.

(** X6. With no client id passed and [SPOTIFY_CLIENT_ID] set to the
    empty string, the first access raises the configuration error but
    has stored the empty string, so the next access returns it and
    raises nothing. *)
Theorem client_id_empty_in_environment (w : World) (st : St) :
  _client_id (self st) = None ->
  environ w !! "SPOTIFY_CLIENT_ID" = Some "" ->
  fst (client_id w st)
  = Raise (ValueError "SPOTIFY_CLIENT_ID environment variable not set.")
  /\ fst (client_id w (snd (client_id w st))) = Ok (Some "").
Proof.
  destruct st as [[cid sec tu bu at_ te] tr]. simpl. intros -> Henv.
  unfold client_id, getenv. unfold_monad. simpl. rewrite Henv. simpl.
  split; reflexivity.
Qed.

Lemma client_id_empty_in_environment_witness :
  let w := fixed_world {[ "SPOTIFY_CLIENT_ID" := "" ]} 100
             token_response empty_response in
  let st := mkSt (mkConnector None None "" "" PNone None) [] in
  fst (client_id w st)
  = Raise (ValueError "SPOTIFY_CLIENT_ID environment variable not set.")
  /\ fst (client_id w (snd (client_id w st))) = Ok (Some "").
Proof.
  apply (client_id_empty_in_environment
           (fixed_world {[ "SPOTIFY_CLIENT_ID" := "" ]} 100
              token_response empty_response)
           (mkSt (mkConnector None None "" "" PNone None) []));
    reflexivity.
Defined.

(** X7. A constructor call without a client id, in an environment where
    [SPOTIFY_CLIENT_ID] is unset or empty, raises the configuration
    error before anything is sent: there is no object and the history
    is as it was. *)
Theorem new_without_client_id (w : World) (sec : option string)
    (history : list Event) :
  truthy (environ w !! "SPOTIFY_CLIENT_ID") = false ->
  new w None sec history
  = (Raise (ValueError "SPOTIFY_CLIENT_ID environment variable not set."),
     history).
Proof.
  intros Henv. unfold new, __init__, authenticate, client_id, getenv.
  unfold_monad. simpl. rewrite Henv. reflexivity.
Qed.


Lemma new_without_client_id_witness :
  new (fixed_world ∅ 100 token_response empty_response) None (Some "secret") []
  = (Raise (ValueError "SPOTIFY_CLIENT_ID environment variable not set."), []).
Proof.
  apply (new_without_client_id
           (fixed_world ∅ 100 token_response empty_response) (Some "secret") []).
  reflexivity.
Defined.

(** ** The object over its life *)

(** X8. A constructor call that hands out an object has posted exactly
    once, to the fixed token URL, got a 200 answer, and the object holds
    the token and the expiry made from that answer, and the two fixed
    URLs. *)
Theorem new_authenticates (w : World) (cid sec : option string)
    (history : list Event) (c : SpotifyConnector) (tr : list Event) :
  new w cid sec history = (Ok c, tr) ->
  exists auth resp info ttl now e,
    tr = (history ++
          [EvPost "https://accounts.spotify.com/api/token" auth
             [("grant_type", "client_credentials")] (Ok resp);
           EvTime now])%list
    /\ status_code resp = 200%Z
    /\ json resp = Some info
    /\ py_getitem info "access_token" = Ok (access_token c)
    /\ py_getitem info "expires_in" = Ok ttl
    /\ py_add now ttl = Ok e
    /\ token_expiry c = Some e
    /\ token_url c = "https://accounts.spotify.com/api/token"
    /\ base_url c = "https://api.spotify.com/v1/".
Proof.
  unfold new, __init__, authenticate, client_id, client_secret.
  run; intros; simplify_eq; rewrite <- ?app_assoc; simpl;
    do 6 eexists; (split; [reflexivity |]); repeat split; eassumption.
Qed.

Lemma new_authenticates_witness :
  exists auth resp info ttl now e,
    [EvPost "https://accounts.spotify.com/api/token"
       (Basic (b64encode "id:secret"))
       [("grant_type", "client_credentials")] (Ok token_response);
     EvTime 100]
    = ([] ++
       [EvPost "https://accounts.spotify.com/api/token" auth
          [("grant_type", "client_credentials")] (Ok resp);
        EvTime now])%list
    /\ status_code resp = 200%Z
    /\ json resp = Some info
    /\ py_getitem info "access_token" = Ok (access_token (connector "T1" 3700))
    /\ py_getitem info "expires_in" = Ok ttl
    /\ py_add now ttl = Ok e
    /\ token_expiry (connector "T1" 3700) = Some e
    /\ token_url (connector "T1" 3700) = "https://accounts.spotify.com/api/token"
    /\ base_url (connector "T1" 3700) = "https://api.spotify.com/v1/".
Proof.
  apply (new_authenticates
           (fixed_world ∅ 100 token_response empty_response)
           (Some "id") (Some "secret") [] (connector "T1" 3700)
           [EvPost "https://accounts.spotify.com/api/token"
              (Basic (b64encode "id:secret"))
              [("grant_type", "client_credentials")] (Ok token_response);
            EvTime 100]).
  vm_compute. reflexivity.
Defined.

Lemma new_settled (w : World) (cid sec : option string)
    (history : list Event) (c : SpotifyConnector) (tr : list Event) :
  new w cid sec history = (Ok c, tr) ->
  is_Some (_client_id c) /\ is_Some (token_expiry c)
  /\ token_url c = "https://accounts.spotify.com/api/token"
  /\ base_url c = "https://api.spotify.com/v1/".
Proof.
  unfold new, __init__, authenticate, client_id, client_secret, getenv.
  run; intros; simplify_eq; simpl;
    (split; [| split; [| split; reflexivity]]); eauto.
  all: try match goal with
           | H : truthy ?x = true |- is_Some ?x =>
               destruct x; [eauto | discriminate]
           end.
  all: destruct cid; [eauto | congruence].
Qed.

Section Lifetime.

Lemma kept_refl (c : SpotifyConnector) : kept c c.
Proof. repeat split; auto. Qed.

Lemma kept_trans (a b c : SpotifyConnector) : kept a b -> kept b c -> kept a c.
Proof.
  unfold kept. intros (Hi & Ht & Hb & Hs & He) (Hi' & Ht' & Hb' & Hs' & He').
  repeat split; try congruence; [| auto].
  intros Ha. rewrite <- (Hs Ha). apply Hs'. now rewrite (Hs Ha).
Qed.

Lemma unchanged_keeps {A} (m : M A) :
  (forall st, is_Some (_client_id (self st)) -> self (snd (m st)) = self st) ->
  keeps m.
Proof. intros H st Hid. rewrite (H st Hid). apply kept_refl. Qed.

Lemma client_id_keeps (w : World) : keeps (client_id w).
Proof.
  apply unchanged_keeps. intros [[cid sec tu bu at_ te] tr]. simpl.
  now intros [c ->].
Qed.

Lemma client_secret_keeps (w : World) : keeps (client_secret w).
Proof.
  intros [[cid sec tu bu at_ te] tr]. simpl. intros [c ->].
  unfold client_secret, kept. run; repeat split; auto; congruence.
Qed.

Lemma authenticate_keeps (w : World) : keeps (authenticate w).
Proof.
  intros [[cid sec tu bu at_ te] tr]. simpl. intros [c ->].
  unfold authenticate, client_id, client_secret, kept.
  run; repeat split; eauto; congruence.
Qed.

Lemma send_self (w : World) (endpoint : string) (st : St) :
  self (snd (send w endpoint st)) = self st.
Proof.
  destruct st as [[cid sec tu bu at_ te] tr].
  unfold send. run; reflexivity.
Qed.

Lemma refresh_token_keeps (w : World) : keeps (refresh_token w).
Proof.
  intros st Hid. rewrite refresh_token_eq.
  pose proof (is_token_expired_run w st) as Hc.
  destruct (is_token_expired w st) as [[[|]|e] s1]; simpl in Hc; subst s1; simpl;
    try apply kept_refl.
  apply (authenticate_keeps w
           (mkSt (self st)
              ((trace st ++ [EvTime (clock w (trace st))])
               ++ [EvLog INFO "Token expired, refreshing..."]))).
  exact Hid.
Qed.

Lemma make_request_keeps (w : World) (endpoint : string) :
  keeps (make_request w endpoint).
Proof.
  intros st Hid. rewrite make_request_eq. unfold bind.
  pose proof (refresh_token_keeps w st Hid) as Hk.
  destruct (refresh_token w st) as [[[]|e] s1]; simpl in *; [| exact Hk].
  now rewrite send_self.
Qed.

Lemma fetch_keeps {A} (w : World) (endpoint before : string)
    (project : PyVal -> Result A) (after : A -> string) :
  keeps (fetch w endpoint before project after).
Proof.
  intros st Hid. rewrite fetch_eq.
  pose proof (make_request_keeps w endpoint (snd (logger DEBUG before st)) Hid) as Hk.
  simpl in Hk.
  destruct (make_request w endpoint _) as [[data|e] s]; simpl in *; [| exact Hk].
  destruct (project data); exact Hk.
Qed.

Lemma invoke_keeps (w : World) (c : Call) (st : St) :
  is_Some (_client_id (self st)) -> kept (self st) (self (invoke w c st)).
Proof.
  destruct c; simpl.
  - apply client_id_keeps.
  - apply client_secret_keeps.
  - apply authenticate_keeps.
  - apply (unchanged_keeps (is_token_expired w)).
    intros s _. now rewrite is_token_expired_run.
  - apply refresh_token_keeps.
  - apply make_request_keeps.
  - rewrite get_playlists_fetch. apply fetch_keeps.
  - rewrite get_user_playlists_fetch. apply fetch_keeps.
  - rewrite get_playlist_tracks_fetch. apply fetch_keeps.
Qed.

Lemma run_calls_keeps (calls : list (World * Call)) (st : St) :
  is_Some (_client_id (self st)) -> kept (self st) (self (run_calls calls st)).
Proof.
  revert st. induction calls as [|[w c] calls IH]; intros st Hid; simpl.
  - apply kept_refl.
  - pose proof (invoke_keeps w c st Hid) as Hk.
    apply (kept_trans _ _ _ Hk). apply IH.
    destruct Hk as (Hi & _). simpl. now rewrite Hi.
Qed.

End Lifetime.

(** X9. After a constructor call that handed out an object, no sequence
    of calls of its methods, raising or not, in whatever worlds, changes
    its client id or its two URLs, or a client secret that it holds; an
    expiry stays stored, so the freshness check never raises. *)
Theorem calls_keep_object (w : World) (cid sec : option string)
    (history : list Event) (c : SpotifyConnector) (tr : list Event)
    (calls : list (World * Call)) (w' : World) :
  new w cid sec history = (Ok c, tr) ->
  let st := run_calls calls (mkSt c tr) in
  is_Some (_client_id c)
  /\ _client_id (self st) = _client_id c
  /\ (_client_secret c <> None -> _client_secret (self st) = _client_secret c)
  /\ token_url (self st) = "https://accounts.spotify.com/api/token"
  /\ base_url (self st) = "https://api.spotify.com/v1/"
  /\ is_Some (token_expiry (self st))
  /\ exists b : bool, fst (is_token_expired w' st) = Ok b.
Proof.
  intros Hnew st.
  destruct (new_settled _ _ _ _ _ _ Hnew) as (Hid & Hexp & Htu & Hbu).
  destruct (run_calls_keeps calls (mkSt c tr) Hid) as (Hi & Ht & Hb & Hs & He).
  fold st in Hi, Ht, Hb, Hs, He. simpl in *.
  split; [assumption |]. split; [assumption |]. split; [assumption |].
  split; [congruence |]. split; [congruence |]. split; [auto |].
  destruct (He Hexp) as [e Hsome].
  unfold is_token_expired. unfold_monad. simpl. rewrite Hsome. eauto.
Qed.

Lemma calls_keep_object_witness :
  let w := fixed_world ∅ 5000 token_response unauthorized in
  let c := connector "T1" 8600 in
  let st := run_calls
              [(w, CallGetPlaylists None); (world_with_secret, CallAuthenticate);
               (offline_world, CallGetPlaylistTracks "abc");
               (world_with_secret, CallClientSecret)]
              (mkSt c
                 [EvPost "https://accounts.spotify.com/api/token"
                    (Basic (b64encode "id:secret"))
                    [("grant_type", "client_credentials")] (Ok token_response);
                  EvTime 5000]) in
  is_Some (_client_id c)
  /\ _client_id (self st) = _client_id c
  /\ (_client_secret c <> None -> _client_secret (self st) = _client_secret c)
  /\ token_url (self st) = "https://accounts.spotify.com/api/token"
  /\ base_url (self st) = "https://api.spotify.com/v1/"
  /\ is_Some (token_expiry (self st))
  /\ exists b : bool, fst (is_token_expired offline_world st) = Ok b.
Proof.
  apply (calls_keep_object
           (fixed_world ∅ 5000 token_response unauthorized)
           (Some "id") (Some "secret") [] (connector "T1" 8600)).
  vm_compute. reflexivity.
Defined.

(** ** More on requests *)

Lemma Qgtb_le (a b : Q) : (a <= b)%Q -> Qgtb a b = false.
Proof.
  intros Hle. destruct (Qgtb a b) eqn:Hgt; [| reflexivity].
  apply Qgtb_lt in Hgt. exfalso. now apply (Qlt_not_le b a).
Qed.

Section MoreRequests.

Variable w : World.

(** X10. With a stored expiry not before the clock reading, a call of
    [make_request] leaves the object as it is, posts nothing and sends
    exactly one GET, to the base URL followed by the endpoint with the
    stored token for bearer; the answer to it decides the result. *)
Theorem make_request_fresh (endpoint : string) (st : St) (e : Q) :
  token_expiry (self st) = Some e ->
  (clock w (trace st) <= e)%Q ->
  let evs := events_of (make_request w endpoint) st in
  self (snd (make_request w endpoint st)) = self st
  /\ count_if is_post evs = 0
  /\ count_if is_get evs = 1
  /\ exists r,
       EvGet (base_url (self st) ++ endpoint)
         (Bearer (access_token (self st))) r ∈ evs
       /\ fst (make_request w endpoint st) = read_response r.
Proof.
  intros He Hle evs. subst evs. unfold events_of.
  rewrite make_request_eq. unfold bind. rewrite refresh_token_eq.
  unfold is_token_expired. unfold_monad. simpl. rewrite He. simpl.
  rewrite (Qgtb_le _ _ Hle). simpl.
  set (st1 := {| self := self st; trace := _ |}).
  destruct (send_run w endpoint st1) as (r & tail & Hs & Hg & Hp & Hres).
  rewrite send_self, Hs. subst st1. simpl. events.
  rewrite !count_if_cons. simpl.
  split; [reflexivity |]. split; [lia |]. split; [lia |].
  exists r. split; [| assumption].
  do 2 apply list_elem_of_further. apply list_elem_of_here.
Qed.

(** X11. When a call of [make_request] has posted to the token endpoint
    and the refresh returned, the answer was a 200 with an
    [access_token], that was the only POST of the call, the object now
    holds that token, and the GET that follows carries it, not the old
    one. *)
Theorem make_request_uses_new_token (endpoint : string) (st : St)
    (url : string) (auth : Authorization) (data : list (string * string))
    (resp : Response) :
  EvPost url auth data (Ok resp) ∈ events_of (make_request w endpoint) st ->
  fst (refresh_token w st) = Ok tt ->
  let evs := events_of (make_request w endpoint) st in
  exists info tok,
    status_code resp = 200%Z
    /\ json resp = Some info
    /\ py_getitem info "access_token" = Ok tok
    /\ access_token (self (snd (make_request w endpoint st))) = tok
    /\ count_if is_post evs = 1
    /\ exists r,
         EvGet (base_url (self st) ++ endpoint) (Bearer tok) r ∈ evs
         /\ fst (make_request w endpoint st) = read_response r.
Proof.
  intros Hin Href evs. subst evs. revert Hin Href.
  unfold events_of. rewrite make_request_eq. unfold bind.
  rewrite refresh_token_eq.
  pose proof (is_token_expired_run w st) as Hc.
  destruct (is_token_expired w st) as [[[|]|e] s1]; simpl in Hc; subst s1; simpl.
  - set (st1 := {| self := self st; trace := _ |}).
    intros Hin Href.
    destruct (authenticate_ok_run w st1 Href)
      as (url' & auth' & data' & resp' & info & ttl & e
          & Htr & H200 & Hjson & Htok & _ & _ & _ & Hbase).
    revert Hin.
    destruct (authenticate w st1) as [[[]|e'] s2]; [| discriminate Href].
    simpl in *.
    destruct (send_run w endpoint s2) as (r & tail & Hs & Hg & Hp & Hres).
    rewrite send_self, Hs, Htr. subst st1. simpl. events. intros Hin.
    exists info, (access_token (self s2)).
    repeat (apply elem_of_cons in Hin as [Hin | Hin];
            [try discriminate Hin |]).
    + injection Hin as -> -> -> ->.
      rewrite !count_if_cons. simpl. rewrite Hbase in *.
      repeat split; try assumption; [lia |].
      exists r. split; [| assumption].
      do 5 apply list_elem_of_further. apply list_elem_of_here.
    + pose proof (count_if_none _ _ _ Hp Hin). discriminate.
  - set (st1 := {| self := self st; trace := _ |}).
    destruct (send_run w endpoint st1) as (r & tail & Hs & Hg & Hp & Hres).
    rewrite Hs. subst st1. simpl. events. intros Hin.
    repeat (apply elem_of_cons in Hin as [Hin | Hin]; [discriminate Hin |]).
    pose proof (count_if_none _ _ _ Hp Hin). discriminate.
  - intros _ Href. discriminate Href.
Qed.

(** X12. When [requests.get] itself raises, [make_request] raises the
    same exception; when the answer has status 200 and a body that is
    not JSON, it raises the parse error. *)
Theorem make_request_get_failures (endpoint : string) (st : St)
    (url : string) (auth : Authorization) (r : Result Response) :
  EvGet url auth r ∈ events_of (make_request w endpoint) st ->
  (forall e, r = Raise e -> fst (make_request w endpoint st) = Raise e)
  /\ (forall resp, r = Ok resp -> status_code resp = 200%Z -> json resp = None ->
        fst (make_request w endpoint st) = Raise JSONDecodeError).
Proof.
  intros Hin.
  destruct (make_request_run w endpoint st) as (evs & Htr & Hres).
  rewrite (events_of_app _ _ _ Htr) in Hin.
  destruct (Hres _ _ _ Hin) as [-> _]. split.
  - now intros e ->.
  - intros resp -> H200 Hjson. unfold read_response.
    destruct (decide (status_code resp = 200%Z)); [| done]. now rewrite Hjson.
Qed.

Lemma request_fails_read (r : Result Response) (e : Exn) :
  request_fails r e -> read_response r = Raise e.
Proof.
  intros [e' | resp Hne | resp H200 Hjson]; unfold read_response.
  - reflexivity.
  - now destruct (decide (status_code resp = 200%Z)).
  - destruct (decide (status_code resp = 200%Z)); [| done]. now rewrite Hjson.
Qed.

(** X13. None of the three fetching methods catches a failed request:
    when the GET raised, or was answered with a status other than 200,
    or with a 200 and a body that is not JSON, the method raises the
    exception of [make_request] unchanged. *)
Theorem fetchers_propagate (r : Result Response) (e : Exn) :
  request_fails r e ->
  (forall category_id st url auth,
     EvGet url auth r ∈ events_of (get_playlists w category_id) st ->
     fst (get_playlists w category_id st) = Raise e)
  /\ (forall st url auth,
        EvGet url auth r ∈ events_of (get_user_playlists w) st ->
        fst (get_user_playlists w st) = Raise e)
  /\ (forall playlist_id st url auth,
        EvGet url auth r ∈ events_of (get_playlist_tracks w playlist_id) st ->
        fst (get_playlist_tracks w playlist_id st) = Raise e).
Proof.
  intros Hr. apply request_fails_read in Hr. split; [| split].
  - intros category_id st url auth Hin. unfold events_of in Hin.
    rewrite get_playlists_fetch in *.
    apply fetch_run in Hin as [-> _]. now rewrite Hr.
  - intros st url auth Hin. unfold events_of in Hin.
    rewrite get_user_playlists_fetch in *.
    apply fetch_run in Hin as [-> _]. now rewrite Hr.
  - intros playlist_id st url auth Hin. unfold events_of in Hin.
    rewrite get_playlist_tracks_fetch in *.
    apply fetch_run in Hin as [-> _]. now rewrite Hr.
Qed.

(** X14. On a 200 answer whose body is JSON but no object (a list, a
    string, a number, [null]), each of the three fetching methods
    raises [AttributeError]: the body has no [get]. *)
Theorem fetchers_need_object (resp : Response) (data : PyVal) :
  status_code resp = 200%Z ->
  json resp = Some data ->
  (forall d, data <> PDict d) ->
  (forall category_id st url auth,
     EvGet url auth (Ok resp) ∈ events_of (get_playlists w category_id) st ->
     fst (get_playlists w category_id st) = Raise AttributeError)
  /\ (forall st url auth,
        EvGet url auth (Ok resp) ∈ events_of (get_user_playlists w) st ->
        fst (get_user_playlists w st) = Raise AttributeError)
  /\ (forall playlist_id st url auth,
        EvGet url auth (Ok resp) ∈ events_of (get_playlist_tracks w playlist_id) st ->
        fst (get_playlist_tracks w playlist_id st) = Raise AttributeError).
Proof.
  intros H200 Hjson Hobj.
  assert (read_response (Ok resp) = Ok data) as Hr.
  { unfold read_response. destruct (decide (status_code resp = 200%Z)); [| done].
    now rewrite Hjson. }
  assert (forall k dflt, py_get data k dflt = Raise AttributeError) as Hget.
  { intros k dflt. destruct data; try reflexivity. now destruct (Hobj d). }
  split; [| split].
  - intros category_id st url auth Hin. unfold events_of in Hin.
    rewrite get_playlists_fetch in *.
    apply fetch_run in Hin as [-> _]. rewrite Hr. simpl.
    unfold playlist_ids_of. now rewrite Hget.
  - intros st url auth Hin. unfold events_of in Hin.
    rewrite get_user_playlists_fetch in *.
    apply fetch_run in Hin as [-> _]. rewrite Hr. simpl. now rewrite Hget.
  - intros playlist_id st url auth Hin. unfold events_of in Hin.
    rewrite get_playlist_tracks_fetch in *.
    apply fetch_run in Hin as [-> _]. rewrite Hr. simpl. now rewrite Hget.
Qed.

Lemma user_playlist_item (item : PyVal) (p : PlaylistSummary) :
  playlist_item item p -> user_playlist item = Ok (playlist_summary p).
Proof.
  intros (tracks & Hid & Hname & Htracks & Htotal).
  unfold user_playlist, key. rewrite Hid. simpl. rewrite Hname. simpl.
  rewrite Htracks. simpl. now rewrite Htotal.
Qed.

Lemma comprehension_first_error {A B} (f : A -> Result B)
    (good : list A) (ys : list B) (bad : A) (rest : list A) (e : Exn) :
  Forall2 (fun x y => f x = Ok y) good ys ->
  f bad = Raise e ->
  comprehension f (good ++ bad :: rest) = Raise e.
Proof.
  intros Hgood Hbad.
  induction Hgood as [|x y good ys Hxy _ IH]; simpl.
  - now rewrite Hbad.
  - now rewrite Hxy, IH.
Qed.

(** X15. On a 200 answer whose body has a list of [items], each with
    an [id], a [name] and a [tracks] object with a [total],
    [get_user_playlists] asks for [me/playlists] and returns one record
    per item, in order: the id, the name and the total as
    [tracks_count]. *)
Theorem get_user_playlists_projects (st : St)
    (url : string) (auth : Authorization) (resp : Response)
    (data : list (string * PyVal)) (items : list PyVal)
    (playlists : list PlaylistSummary) :
  EvGet url auth (Ok resp) ∈ events_of (get_user_playlists w) st ->
  status_code resp = 200%Z ->
  json resp = Some (PDict data) ->
  assoc "items" data = Some (PList items) ->
  Forall2 playlist_item items playlists ->
  fst (get_user_playlists w st) = Ok (map playlist_summary playlists)
  /\ url = base_url (self st) ++ "me/playlists".
Proof.
  intros Hin H200 Hjson Hitems Hpl.
  unfold events_of in Hin. rewrite get_user_playlists_fetch in *.
  apply fetch_run in Hin as [Hres ->]. rewrite Hres. clear Hres.
  unfold read_response. destruct (decide (status_code resp = 200%Z)); [| done].
  rewrite Hjson. simpl. rewrite Hitems. simpl.
  split; [| reflexivity].
  apply comprehension_Forall2. clear Hitems.
  induction Hpl as [|item p items playlists Hitem _ IH]; simpl;
    constructor; [now apply user_playlist_item | assumption].
Qed.

(** X16. On a 200 answer whose body is an object without [items], or
    with an empty list of them, [get_user_playlists] and
    [get_playlist_tracks] return the empty list. *)
Theorem fetchers_without_items (resp : Response) (data : list (string * PyVal)) :
  status_code resp = 200%Z ->
  json resp = Some (PDict data) ->
  assoc "items" data = None \/ assoc "items" data = Some (PList []) ->
  (forall st url auth,
     EvGet url auth (Ok resp) ∈ events_of (get_user_playlists w) st ->
     fst (get_user_playlists w st) = Ok [])
  /\ (forall playlist_id st url auth,
        EvGet url auth (Ok resp) ∈ events_of (get_playlist_tracks w playlist_id) st ->
        fst (get_playlist_tracks w playlist_id st) = Ok []).
Proof.
  intros H200 Hjson Hitems.
  assert (read_response (Ok resp) = Ok (PDict data)) as Hr.
  { unfold read_response. destruct (decide (status_code resp = 200%Z)); [| done].
    now rewrite Hjson. }
  split.
  - intros st url auth Hin. unfold events_of in Hin.
    rewrite get_user_playlists_fetch in *.
    apply fetch_run in Hin as [-> _]. rewrite Hr. simpl.
    destruct Hitems as [-> | ->]; reflexivity.
  - intros playlist_id st url auth Hin. unfold events_of in Hin.
    rewrite get_playlist_tracks_fetch in *.
    apply fetch_run in Hin as [-> _]. rewrite Hr. simpl.
    destruct Hitems as [-> | ->]; reflexivity.
Qed.

(** X17. One item that cannot be projected is fatal to
    [get_playlist_tracks]: after any number of good items, the first
    item on which the projection raises makes the call raise that
    exception, and no record is returned. *)
Theorem get_playlist_tracks_malformed_item (playlist_id : string) (st : St)
    (url : string) (auth : Authorization) (resp : Response)
    (data : list (string * PyVal)) (good : list PyVal)
    (tracks : list TrackSummary) (bad : PyVal) (rest : list PyVal) (e : Exn) :
  EvGet url auth (Ok resp) ∈ events_of (get_playlist_tracks w playlist_id) st ->
  status_code resp = 200%Z ->
  json resp = Some (PDict data) ->
  assoc "items" data = Some (PList (good ++ bad :: rest)) ->
  Forall2 track_item good tracks ->
  track_detail bad = Raise e ->
  fst (get_playlist_tracks w playlist_id st) = Raise e.
Proof.
  intros Hin H200 Hjson Hitems Hgood Hbad.
  unfold events_of in Hin. rewrite get_playlist_tracks_fetch in *.
  apply fetch_run in Hin as [Hres _]. rewrite Hres. clear Hres.
  unfold read_response. destruct (decide (status_code resp = 200%Z)); [| done].
  rewrite Hjson. simpl. rewrite Hitems. simpl.
  apply comprehension_first_error with (ys := map summary tracks); [| assumption].
  clear Hitems.
  induction Hgood as [|item t good tracks Hitem _ IH]; simpl;
    constructor; [now apply track_detail_item | assumption].
Qed.

(** X18. Unlike a missing [playlists] or [items], an item without an
    [id] is an error for [get_playlists]: after any number of good
    items, the first such item makes the call raise [KeyError]. *)
Theorem get_playlists_item_without_id (category_id : option string) (st : St)
    (url : string) (auth : Authorization) (resp : Response)
    (data playlists : list (string * PyVal)) (good ids : list PyVal)
    (bad : list (string * PyVal)) (rest : list PyVal) :
  EvGet url auth (Ok resp) ∈ events_of (get_playlists w category_id) st ->
  status_code resp = 200%Z ->
  json resp = Some (PDict data) ->
  assoc "playlists" data = Some (PDict playlists) ->
  assoc "items" playlists = Some (PList (good ++ PDict bad :: rest)) ->
  Forall2 (fun item id => py_getitem item "id" = Ok id) good ids ->
  assoc "id" bad = None ->
  fst (get_playlists w category_id st) = Raise (KeyError "id").
Proof.
  intros Hin H200 Hjson Hpl Hitems Hgood Hbad.
  unfold events_of in Hin. rewrite get_playlists_fetch in *.
  apply fetch_run in Hin as [Hres _]. rewrite Hres. clear Hres.
  unfold read_response. destruct (decide (status_code resp = 200%Z)); [| done].
  rewrite Hjson. unfold playlist_ids_of. simpl. rewrite Hpl. simpl.
  rewrite Hitems. simpl.
  apply comprehension_first_error with (ys := ids); [assumption |].
  unfold key. simpl. now rewrite Hbad.
Qed.

End MoreRequests.

(** ** The further theorems at the fixtures *)

Lemma make_request_fresh_witness :
  let w := fixed_world ∅ 100 token_response (ok_response playlists_body) in
  let evs := events_of (make_request w "me/playlists") fresh in
  self (snd (make_request w "me/playlists" fresh)) = self fresh
  /\ count_if is_post evs = 0
  /\ count_if is_get evs = 1
  /\ exists r,
       EvGet (base_url (self fresh) ++ "me/playlists")
         (Bearer (access_token (self fresh))) r ∈ evs
       /\ fst (make_request w "me/playlists" fresh) = read_response r.
Proof.
  apply (make_request_fresh
           (fixed_world ∅ 100 token_response (ok_response playlists_body))
           "me/playlists" fresh 200).
  - reflexivity.
  - vm_compute. discriminate.
Defined.

Lemma make_request_uses_new_token_witness :
  let w := fixed_world ∅ 100 token_response (ok_response playlists_body) in
  let evs := events_of (make_request w "me/playlists") stale in
  exists info tok,
    status_code token_response = 200%Z
    /\ json token_response = Some info
    /\ py_getitem info "access_token" = Ok tok
    /\ access_token (self (snd (make_request w "me/playlists" stale))) = tok
    /\ count_if is_post evs = 1
    /\ exists r,
         EvGet (base_url (self stale) ++ "me/playlists") (Bearer tok) r ∈ evs
         /\ fst (make_request w "me/playlists" stale) = read_response r.
Proof.
  apply (make_request_uses_new_token
           (fixed_world ∅ 100 token_response (ok_response playlists_body))
           "me/playlists" stale
           "https://accounts.spotify.com/api/token"
           (Basic (b64encode "id:secret"))
           [("grant_type", "client_credentials")]
           token_response).
  - vm_compute. do 2 apply list_elem_of_further. apply list_elem_of_here.
  - vm_compute. reflexivity.
Defined.

(** The new token there is the one of the answer. *)
Example make_request_new_token :
  let w := fixed_world ∅ 100 token_response (ok_response playlists_body) in
  access_token (self (snd (make_request w "me/playlists" stale))) = PStr "T1"
  /\ EvGet "https://api.spotify.com/v1/me/playlists" (Bearer (PStr "T1"))
       (Ok (ok_response playlists_body))
     ∈ events_of (make_request w "me/playlists") stale.
Proof.
  vm_compute. split; [reflexivity |].
  do 5 apply list_elem_of_further. apply list_elem_of_here.
Qed.

Lemma make_request_get_failures_witness :
  fst (make_request offline_world "me/playlists" fresh)
  = Raise (RequestException "connection refused").
Proof.
  destruct (make_request_get_failures offline_world "me/playlists" fresh
              "https://api.spotify.com/v1/me/playlists" (Bearer (PStr "T0"))
              (Raise (RequestException "connection refused"))) as [Hraise _].
  - vm_compute. do 2 apply list_elem_of_further. apply list_elem_of_here.
  - apply Hraise. reflexivity.
Defined.

Lemma fetchers_propagate_witness :
  let w := fixed_world ∅ 100 token_response unauthorized in
  fst (get_user_playlists w fresh) = Raise (request_error 401 "Unauthorized").
Proof.
  destruct (fetchers_propagate
              (fixed_world ∅ 100 token_response unauthorized)
              (Ok unauthorized) (request_error 401 "Unauthorized"))
    as (_ & Huser & _).
  - apply (bad_status unauthorized). discriminate.
  - apply (Huser fresh "https://api.spotify.com/v1/me/playlists"
             (Bearer (PStr "T0"))).
    vm_compute. do 3 apply list_elem_of_further. apply list_elem_of_here.
Defined.

Lemma fetchers_need_object_witness :
  let w := fixed_world ∅ 100 token_response (ok_response (PList [])) in
  fst (get_playlist_tracks w "abc" fresh) = Raise AttributeError.
Proof.
  destruct (fetchers_need_object
              (fixed_world ∅ 100 token_response (ok_response (PList [])))
              (ok_response (PList [])) (PList []))
    as (_ & _ & Htracks).
  - reflexivity.
  - reflexivity.
  - discriminate.
  - apply (Htracks "abc" fresh "https://api.spotify.com/v1/playlists/abc/tracks"
             (Bearer (PStr "T0"))).
    vm_compute. do 3 apply list_elem_of_further. apply list_elem_of_here.
Defined.

Lemma get_user_playlists_projects_witness :
  let w := fixed_world ∅ 100 token_response (ok_response user_playlists_body) in
  fst (get_user_playlists w fresh)
  = Ok [PDict [("id", PStr "u1"); ("name", PStr "Mine"); ("tracks_count", PInt 12)];
        PDict [("id", PStr "u2"); ("name", PStr "Yours"); ("tracks_count", PInt 0)]].
Proof.
  destruct (get_user_playlists_projects
              (fixed_world ∅ 100 token_response (ok_response user_playlists_body))
              fresh "https://api.spotify.com/v1/me/playlists"
              (Bearer (PStr "T0")) (ok_response user_playlists_body)
              [("items",
                PList [PDict [("id", PStr "u1"); ("name", PStr "Mine");
                              ("tracks", PDict [("total", PInt 12)])];
                       PDict [("id", PStr "u2"); ("name", PStr "Yours");
                              ("tracks", PDict [("total", PInt 0)])]])]
              [PDict [("id", PStr "u1"); ("name", PStr "Mine");
                      ("tracks", PDict [("total", PInt 12)])];
               PDict [("id", PStr "u2"); ("name", PStr "Yours");
                      ("tracks", PDict [("total", PInt 0)])]]
              [mkPlaylist (PStr "u1") (PStr "Mine") (PInt 12);
               mkPlaylist (PStr "u2") (PStr "Yours") (PInt 0)])
    as [Hres _].
  - vm_compute. do 3 apply list_elem_of_further. apply list_elem_of_here.
  - reflexivity.
  - reflexivity.
  - reflexivity.
  - repeat constructor; unfold playlist_item; eexists; simpl;
      repeat split; reflexivity.
  - exact Hres.
Defined.

Lemma fetchers_without_items_witness :
  let w := fixed_world ∅ 100 token_response empty_response in
  fst (get_user_playlists w fresh) = Ok []
  /\ fst (get_playlist_tracks w "abc" fresh) = Ok [].
Proof.
  destruct (fetchers_without_items
              (fixed_world ∅ 100 token_response empty_response)
              empty_response []) as [Huser Htracks].
  - reflexivity.
  - reflexivity.
  - left. reflexivity.
  - split.
    + apply (Huser fresh "https://api.spotify.com/v1/me/playlists"
               (Bearer (PStr "T0"))).
      vm_compute. do 3 apply list_elem_of_further. apply list_elem_of_here.
    + apply (Htracks "abc" fresh "https://api.spotify.com/v1/playlists/abc/tracks"
               (Bearer (PStr "T0"))).
      vm_compute. do 3 apply list_elem_of_further. apply list_elem_of_here.
Defined.

Lemma get_playlist_tracks_malformed_item_witness :
  let w := fixed_world ∅ 100 token_response (ok_response removed_track_body) in
  fst (get_playlist_tracks w "abc" fresh) = Raise TypeError.
Proof.
  apply (get_playlist_tracks_malformed_item
           (fixed_world ∅ 100 token_response (ok_response removed_track_body))
           "abc" fresh "https://api.spotify.com/v1/playlists/abc/tracks"
           (Bearer (PStr "T0")) (ok_response removed_track_body)
           [("items",
             PList [PDict [("track",
                            PDict [("name", PStr "Song A");
                                   ("artists", PList [artist "Ann"; artist "Bob"]);
                                   ("id", PStr "t1")])];
                    PDict [("track", PNone)]])]
           [PDict [("track",
                    PDict [("name", PStr "Song A");
                           ("artists", PList [artist "Ann"; artist "Bob"]);
                           ("id", PStr "t1")])]]
           [mkTrack (PStr "Song A") (PStr "Ann") (PStr "t1")]
           (PDict [("track", PNone)]) [] TypeError).
  - vm_compute. do 3 apply list_elem_of_further. apply list_elem_of_here.
  - reflexivity.
  - reflexivity.
  - reflexivity.
  - repeat constructor. unfold track_item. do 3 eexists. simpl.
    repeat split; reflexivity.
  - reflexivity.
Defined.

Lemma get_playlists_item_without_id_witness :
  let w := fixed_world ∅ 100 token_response (ok_response nameless_playlists_body) in
  fst (get_playlists w None fresh) = Raise (KeyError "id").
Proof.
  apply (get_playlists_item_without_id
           (fixed_world ∅ 100 token_response (ok_response nameless_playlists_body))
           None fresh "https://api.spotify.com/v1/browse/featured-playlists"
           (Bearer (PStr "T0")) (ok_response nameless_playlists_body)
           [("playlists",
             PDict [("items",
                     PList [PDict [("id", PStr "p1")];
                            PDict [("name", PStr "Two")]])])]
           [("items",
             PList [PDict [("id", PStr "p1")];
                    PDict [("name", PStr "Two")]])]
           [PDict [("id", PStr "p1")]] [PStr "p1"]
           [("name", PStr "Two")] []).
  - vm_compute. do 3 apply list_elem_of_further. apply list_elem_of_here.
  - reflexivity.
  - reflexivity.
  - reflexivity.
  - reflexivity.
  - repeat constructor.
  - reflexivity.
Defined.
